(** * colorcodebot: a shallow embedding of [app/colorcodebot.py]

    The bot receives text messages, decides whether the sender wants them
    looked at (the watch/ignore gate), settles a syntax for the snippet
    (explicit markup, classifier, literal prefixes, chat default), renders
    it in one or two themes and lets users delete its replies.

    Python values are modelled as follows.
    - [str] is a sequence of Unicode code points, [list N];
    - [int] is [Z]; [float] is a binary64 [float];
    - [Optional[X]] is [option X];
    - the three [KeyValue] tables are [gmap]s carried in the [World];
    - every call that leaves the process (Telegram gateway, classifier,
      renderer, logger, sleep, thread start) is recorded in the [trace]
      of the [World] and answered by the [Outside];
    - a raised exception is the [Raise] outcome of a handler.

    Left out: failures of the database and of the logger, the temporary
    folder of the images, and what the thread started by
    [intake_snippet] does later on. *)

From Stdlib Require Import Floats.PrimFloat.
From stdpp Require Import gmap strings list pretty.

Set Warnings "-register-all".
Open Scope Z_scope.

(** ** Python [str] *)

Abbreviation str := (list N) (only parsing).

(** A literal of the source, code point by code point (ASCII literals). *)
Definition lit (s : string) : str :=
  (λ a, Ascii.N_of_ascii a) <$> String.list_ascii_of_string s.

(** [Py_UNICODE_ISSPACE]: the code points [str.split()] splits on. *)
Definition isspace (c : N) : bool :=
  ((9 <=? c) && (c <=? 13) || (28 <=? c) && (c <=? 32)
   || (c =? 133) || (c =? 160) || (c =? 5760)
   || (8192 <=? c) && (c <=? 8202)
   || (c =? 8232) || (c =? 8233) || (c =? 8239) || (c =? 8287)
   || (c =? 12288))%N.

(** [s.split()] with no argument: the maximal runs of non-whitespace.
    [cur] holds the current run, reversed. *)
Fixpoint split_from (cur : str) (s : str) : list str :=
  match s with
  | [] => match cur with [] => [] | _ => [rev cur] end
  | c :: s' =>
      if isspace c
      then match cur with
           | [] => split_from [] s'
           | _ => rev cur :: split_from [] s'
           end
      else split_from (c :: cur) s'
  end.

Definition split (s : str) : list str := split_from [] s.

(** [s.startswith(p)] *)
Fixpoint startswith (s p : str) : bool :=
  match p, s with
  | [], _ => true
  | _ :: _, [] => false
  | a :: p', b :: s' => (a =? b)%N && startswith s' p'
  end.

(** One bound of a slice: a negative index counts from the end, and the
    result is clamped to [0, len]. *)
Definition slice_index (len k : Z) : Z :=
  if k <? 0 then Z.max (k + len) 0 else Z.min k len.

(** [s[i:j]] *)
Definition slice (s : str) (i j : Z) : str :=
  let len := Z.of_nat (length s) in
  let lo := slice_index len i in
  let hi := slice_index len j in
  take (Z.to_nat (hi - lo)) (drop (Z.to_nat lo) s).

(** [sep.join(parts)] *)
Fixpoint join (sep : str) (parts : list str) : str :=
  match parts with
  | [] => []
  | [p] => p
  | p :: rest => p ++ sep ++ join sep rest
  end.

(** Truth value of an [Optional[str]]: [None] and [''] are false. *)
Definition truthy (o : option str) : bool :=
  match o with
  | Some (_ :: _) => true
  | _ => false
  end.

(** [str(n)] for an [int], as an f-string prints it. *)
Definition str_of_int (n : Z) : str := lit (pretty n).

(** ** Telegram types (the attributes the bot reads) *)

Record User := { user_id : Z; first_name : str }.

Record Chat := { chat_id : Z; chat_type : str }.

Record MessageEntity := {
  ent_type : str;
  ent_offset : Z;
  ent_length : Z;
  ent_language : option str;
}.

Inductive Message := mkMessage {
  message_id : Z;
  from_user : option User;
  chat : Chat;
  content_type : str;
  text : str;
  entities : option (list MessageEntity);
  reply_to_message : option Message;
  photo : list str;  (* file ids of the photo sizes *)
}.

(** The payload of an inline button, [ydump({'action': ..., ...})]. *)
Inductive action :=
| Begone
| SetExt (ext : str)
| SetDefaultExt (ext : str)
| BrowseGroupSyntax
| ToggleWatchMode
| Restore (kb_name : str).

Inductive button :=
| CallbackButton (label : str) (data : action)
| SwitchInlineButton (label : str) (query : str).

Abbreviation keyboard := (list button) (only parsing).

Record CallbackQuery := {
  cq_id : str;
  cq_from_user : User;
  cq_message : Message;
  cq_data : action;
}.

Inductive message_or_query :=
| IsMessage (m : Message)
| IsCallbackQuery (q : CallbackQuery).

(** ** Module constants *)

Definition BEGONE_BUTTON : button :=
  CallbackButton [128465; 65039]%N Begone.

Definition BEGONE_KB : keyboard := [BEGONE_BUTTON].

(** [minikb]: one button that restores the named keyboard, and the bin. *)
Definition minikb (kb_name mini_text : str) : keyboard :=
  [CallbackButton mini_text (Restore kb_name); BEGONE_BUTTON].

(** ** Message content *)

Definition is_code_entity (e : MessageEntity) : bool :=
  bool_decide (ent_type e = lit "code") || bool_decide (ent_type e = lit "pre").

Definition is_pre_entity (e : MessageEntity) : bool :=
  bool_decide (ent_type e = lit "pre").

Definition entity_text (message : Message) (e : MessageEntity) : str :=
  slice (text message) (ent_offset e) (ent_offset e + ent_length e).

(** [code_subcontent]: the code and pre spans joined by a blank line, if
    they hold more than one word. *)
Definition code_subcontent (message : Message) : option str :=
  match entities message with
  | None | Some [] => None
  | Some ents =>
      match List.filter is_code_entity ents with
      | [] => None
      | code_entities =>
          let code_content :=
            join [10; 10]%N (entity_text message <$> code_entities) in
          if bool_decide (1 < length (split code_content))%nat
          then Some code_content
          else None
      end
  end.

(** ** Exceptions, outside calls, and the handler monad *)

Inductive exn :=
| ConnectionError        (* requests.exceptions.ConnectionError *)
| ApiException           (* telebot.apihelper.ApiException *)
| AttributeError
| KeyError
| IndexError
| UnboundLocalError
| ProcessExecutionError  (* plumbum: the renderer exited with an error *)
| Exception (msg : string).

Definition is_ConnectionError (e : exn) : bool :=
  match e with ConnectionError => true | _ => false end.

Definition is_ApiException (e : exn) : bool :=
  match e with ApiException => true | _ => false end.

Definition is_AttributeError (e : exn) : bool :=
  match e with AttributeError => true | _ => false end.

Definition is_KeyError (e : exn) : bool :=
  match e with KeyError => true | _ => false end.

(** What a handler asks of the outside; the keyword arguments of the
    logger and the constant formatting arguments of the gateway calls
    ([parse_mode], [disable_web_page_preview]) are left out. *)
Inductive call :=
| LogMsg (event : string)                       (* self.log.msg / log.error *)
| Sleep (seconds : Z)
| GetChatMember (chat_id user_id : Z)
| Probabilities (code : str)                    (* self.guesser.probabilities *)
| Silicon (code : option str) (ext theme : str) (* the silicon run of mk_png *)
| StatSize (png_path : str)
| SendChatAction (chat_id : Z) (what : str)
| SendPhoto (chat_id : Z) (png_path : str) (reply_msg_id : Z)
| SendDocument (chat_id : Z) (png_path : str) (reply_msg_id : Z)
| ReplyTo (message : Message) (body : str) (reply_markup : keyboard)
| EditMessageReplyMarkup (chat_id message_id : Z) (reply_markup : keyboard)
| DeleteMessage (chat_id message_id : Z)
| AnswerCallbackQuery (id : str)
| StartDeleteAfterDelay (message : Message) (delay : Z).

(** The collaborators. Each answer may depend on everything that was
    asked before (the second argument is the trace so far). *)
Record Outside := {
  member_status : list call → Z → Z → exn + str;
  classifier : list call → str → exn + list (str * float);
  renderer : list call → option str → str → str → exn + str;
  file_size : list call → str → exn + Z;
  gateway_message : list call → call → exn + Message;
  gateway_done : list call → call → option exn;
}.

(** The configuration handed to [ColorCodeBot.__init__]. The [lang] texts
    and the [kb] keyboards come from yml files; the entries the modelled
    handlers read are fields here. *)
Record Bot := {
  lang_query_ext : str;
  lang_guessed_syntax : str → str;     (* lang['guessed syntax'].format *)
  lang_syntax_picker : str;
  lang_send_to_chat : str;
  kb_syntax : keyboard;
  guesslang_syntaxes : gmap str str;
  silicon_syntaxes : gmap str str;
  log_is_bindable : bool;  (* isinstance(self.log, BindableLogger) *)
}.

Record World := {
  group_syntaxes : gmap Z str;
  ignore_mode_groups : gmap Z bool;
  group_user_current_watchme_requests : gmap str str;
  trace : list call;
}.

Inductive outcome (A : Type) :=
| Return (a : A)
| Raise (e : exn).
Arguments Return {A} a.
Arguments Raise {A} e.

Definition M (A : Type) : Type := World → outcome A * World.

#[global] Instance M_ret : MRet M := λ A a w, (Return a, w).

#[global] Instance M_bind : MBind M := λ A B f m w,
  match m w with
  | (Return a, w') => f a w'
  | (Raise e, w') => (Raise e, w')
  end.

#[global] Instance M_throw : MThrow exn M := λ A e w, (Raise e, w).

Definition emit (c : call) (w : World) : World :=
  {| group_syntaxes := group_syntaxes w;
     ignore_mode_groups := ignore_mode_groups w;
     group_user_current_watchme_requests := group_user_current_watchme_requests w;
     trace := trace w ++ [c] |}.

(** Ask the outside: the call joins the trace, the answer is returned or
    raised. *)
Definition ask {A} (c : call) (answer : list call → exn + A) : M A :=
  λ w, match answer (trace w) with
       | inr a => (Return a, emit c w)
       | inl e => (Raise e, emit c w)
       end.

Definition tell (c : call) (answer : list call → option exn) : M unit :=
  λ w, match answer (trace w) with
       | None => (Return tt, emit c w)
       | Some e => (Raise e, emit c w)
       end.

(** Calls that cannot fail in the model: logging, sleeping and starting
    a thread. *)
Definition note (c : call) : M unit := λ w, (Return tt, emit c w).

(** [try: body except <caught> as e: handler] *)
Definition try_except {A} (body : M A) (caught : exn → bool)
    (handler : exn → M A) : M A :=
  λ w, match body w with
       | (Raise e, w') => if caught e then handler e w' else (Raise e, w')
       | r => r
       end.

Definition read {A} (f : World → A) : M A := λ w, (Return (f w), w).

Definition write (f : World → World) : M unit := λ w, (Return tt, f w).

(** [x.id] where [x] may be [None]. *)
Definition id_of (u : option User) : M Z :=
  match u with
  | Some u => mret (user_id u)
  | None => mthrow AttributeError
  end.

(** ** The [retry] decorator

    Up to [attempts] calls of [original]; a [ConnectionError] is followed
    by a sleep and the next attempt, any other exception leaves at once.
    When the attempts are used up the last error is raised. [last_error]
    starts as what Python raises when the loop never ran. *)
Fixpoint retry_loop {A} (has_logger : bool) (seconds : Z) (original : M A)
    (attempts attempt : nat) (last_error : exn) : M A :=
  match attempts with
  | O => mthrow last_error
  | S attempts' =>
      try_except original is_ConnectionError (λ e,
        note (Sleep seconds) ;;
        (if has_logger && bool_decide (0 < attempt)%nat
         then note (LogMsg "called retry-able")
         else mret tt) ;;
        retry_loop has_logger seconds original attempts' (S attempt) e)
  end.

Definition retry {A} (has_logger : bool) (original : M A) : M A :=
  retry_loop has_logger 3 original 6 0 UnboundLocalError.

(** The default of [guess_ext]'s [probability_min], the float that the
    literal [0.12] denotes. *)
Definition PROBABILITY_MIN : float := 0x1.eb851eb851eb8p-4%float.

(** The literal prefixes of [guess_ext], in the order the dict literal
    lists them. *)
Definition PREFIXES : list (str * str) :=
  [ (lit "{", lit "json");
    (lit "---" ++ [10]%N, lit "yaml");
    (lit "--- ", lit "diff");
    (lit "-- ", lit "lua");
    ([92]%N, lit "tex");   (* a backslash *)
    (lit "%%", lit "tex");
    (lit "[[", lit "toml");
    (lit "[", lit "ini");
    (lit "<?php", lit "php");
    (lit "<", lit "xml");
    (lit "! ", lit "factor");
    (lit ": ", lit "factor");
    (lit "USING: ", lit "factor");
    (lit "IN: ", lit "factor") ].

(** The key of a per-user request, [f"{chat.id}:{user.id}"]. *)
Definition request_key (chat_id user_id : Z) : str :=
  str_of_int chat_id ++ lit ":" ++ str_of_int user_id.

(** The head of [intake_snippet] (the two early returns): does the
    handler go on for this chat and user? *)
Definition should_process (w : World) (chat_id user_id : Z) : bool :=
  let requests := group_user_current_watchme_requests w in
  if default false (ignore_mode_groups w !! chat_id)
  then bool_decide
         (default (lit "ignore") (requests !! request_key chat_id user_id)
          = lit "watch")
  else negb (bool_decide
         (default (lit "watch") (requests !! request_key chat_id user_id)
          = lit "ignore")).

Definition is_private (c : Chat) : bool :=
  bool_decide (chat_type c = lit "private").

(** The text [intake_snippet] goes on with; [None] is its third early
    return. *)
Definition snippet_text (message : Message) : option str :=
  if negb (is_private (chat message))
  then match code_subcontent message with
       | Some (c :: s) => Some (c :: s)
       | _ => None
       end
  else Some (text message).

Definition is_admin_status (status : str) : bool :=
  bool_decide (status = lit "administrator")
  || bool_decide (status = lit "creator").

Section ColorCodeBot.

Context (out : Outside) (self : Bot).

Definition gateway (c : call) : M unit :=
  tell c (λ tr, gateway_done out tr c).

Definition gateway_returning (c : call) : M Message :=
  ask c (λ tr, gateway_message out tr c).

Definition is_from_group_admin_or_creator (message_or_query : message_or_query)
    : M bool :=
  match message_or_query with
  | IsMessage message =>
      if is_private (chat message) then mret true
      else
        uid ← id_of (from_user message);
        status ← ask (GetChatMember (chat_id (chat message)) uid)
                     (λ tr, member_status out tr (chat_id (chat message)) uid);
        mret (is_admin_status status)
  | IsCallbackQuery query =>
      if is_private (chat (cq_message query)) then mret true
      else
        let cid := chat_id (chat (cq_message query)) in
        let uid := user_id (cq_from_user query) in
        status ← ask (GetChatMember cid uid) (λ tr, member_status out tr cid uid);
        mret (is_admin_status status)
  end.

(** [mk_png]: one run of the renderer (the folder and file names are the
    renderer's business here). *)
Definition mk_png (code : option str) (ext theme : str) : M str :=
  ask (Silicon code ext theme) (λ tr, renderer out tr code ext theme).

Definition send_image_body (chat_id : Z) (png_path : str) (reply_msg_id : Z)
    (log : bool) : M Message :=
  gateway (SendChatAction chat_id (lit "upload_photo")) ;;
  size ← ask (StatSize png_path) (λ tr, file_size out tr png_path);
  let send_document :=
    gateway_returning (SendDocument chat_id png_path reply_msg_id) in
  if (size : Z) <? 300000
  then try_except
         (gateway_returning (SendPhoto chat_id png_path reply_msg_id))
         is_ApiException
         (λ _, (if log then note (LogMsg "failed to send compressed image")
                else mret tt) ;;
               send_document)
  else send_document.

Definition send_image (chat_id : Z) (png_path : str) (reply_msg_id : Z)
    (log : bool) : M Message :=
  retry false (send_image_body chat_id png_path reply_msg_id log).

Definition ignore_group_user_body (message : Message) : M unit :=
  uid ← id_of (from_user message);
  note (LogMsg "ignoring group user") ;;
  write (λ w,
    {| group_syntaxes := group_syntaxes w;
       ignore_mode_groups := ignore_mode_groups w;
       group_user_current_watchme_requests :=
         <[request_key (chat_id (chat message)) uid := lit "ignore"]>
           (group_user_current_watchme_requests w);
       trace := trace w |}).

Definition ignore_group_user (message : Message) : M unit :=
  retry (log_is_bindable self) (ignore_group_user_body message).

Definition watch_group_user_body (message : Message) : M unit :=
  uid ← id_of (from_user message);
  note (LogMsg "watching group user") ;;
  write (λ w,
    {| group_syntaxes := group_syntaxes w;
       ignore_mode_groups := ignore_mode_groups w;
       group_user_current_watchme_requests :=
         <[request_key (chat_id (chat message)) uid := lit "watch"]>
           (group_user_current_watchme_requests w);
       trace := trace w |}).

Definition watch_group_user (message : Message) : M unit :=
  retry (log_is_bindable self) (watch_group_user_body message).

Definition begone_body (cb_query : CallbackQuery) : M unit :=
  has_permission ←
    try_except
      (author ← match reply_to_message (cq_message cb_query) with
                | Some replied => id_of (from_user replied)
                | None => mthrow AttributeError
                end;
       mret (bool_decide (author = user_id (cq_from_user cb_query))))
      is_AttributeError
      (λ _, is_from_group_admin_or_creator (IsCallbackQuery cb_query));
  note (LogMsg "Got deletion request") ;;
  if (has_permission : bool)
  then gateway (DeleteMessage (chat_id (chat (cq_message cb_query)))
                              (message_id (cq_message cb_query)))
  else mret tt.

Definition begone (cb_query : CallbackQuery) : M unit :=
  retry (log_is_bindable self) (begone_body cb_query).

Definition code_specified_syntax (message : Message) : option str :=
  match entities message with
  | None | Some [] => None
  | Some ents =>
      match List.filter is_pre_entity ents with
      | [] => None
      | first :: _ =>
          match ent_language first with
          | Some (c :: lang) => silicon_syntaxes self !! (c :: lang)
          | _ => None
          end
      end
  end.

(** The [for start, ext in {...}.items()] loop of [guess_ext]. *)
Fixpoint simple_guess (items : list (str * str)) (code : str)
    : M (option str) :=
  match items with
  | [] => mret None
  | (start, ext) :: items' =>
      if startswith code start
      then note (LogMsg "simple-guessed syntax") ;; mret (Some ext)
      else simple_guess items' code
  end.

Definition guess_ext (code : str) (probability_min : float)
    : M (option str) :=
  probabilities ← ask (Probabilities code) (λ tr, classifier out tr code);
  match probabilities with
  | [] => mthrow IndexError
  | (syntax, probability) :: _ =>
      let ext := guesslang_syntaxes self !! (syntax : str) in
      note (LogMsg "guessed syntax") ;;
      if PrimFloat.leb probability_min probability
      then mret ext
      else simple_guess PREFIXES code
  end.

(** The themes [set_snippet_filetype] renders for a snippet: the dark one
    always, the light one in a private chat only. *)
Definition themes_of (snippet : Message) : list str :=
  let do_send_image_dark := true in
  let do_send_image_light := is_private (chat snippet) in
  (if do_send_image_dark then [lit "Coldark-Dark"] else [])
  ++ (if do_send_image_light then [lit "Coldark-Cold"] else []).

(** [for x in xs: body(x)] *)
Fixpoint for_each {A} (xs : list A) (body : A → M unit) : M unit :=
  match xs with
  | [] => mret tt
  | x :: xs' => body x ;; for_each xs' body
  end.

(** The body of the [for theme in themes] loop. *)
Definition send_theme (snippet : Message) (text_content : option str)
    (ext : str) (do_attach_send_kb : bool) (theme : str) : M unit :=
  png_path ← mk_png text_content ext theme;
  photo_msg ← send_image (chat_id (chat snippet)) png_path
                         (message_id snippet) false;
  send_kb ←
    (if do_attach_send_kb
        && bool_decide (content_type photo_msg = lit "photo")
     then match last (photo photo_msg) with
          | Some file_id =>
              mret [SwitchInlineButton (lang_send_to_chat self)
                                       (lit "img " ++ file_id)]
          | None => mthrow IndexError
          end
     else mret []);
  gateway (EditMessageReplyMarkup (chat_id (chat photo_msg))
             (message_id photo_msg) (send_kb ++ [BEGONE_BUTTON])).

Definition set_snippet_filetype_body (cb_query : option CallbackQuery)
    (snippet : option Message) (ext : option str) : M unit :=
  '(snippet, ext) ←
    match cb_query with
    | Some q =>
        let query_message := cq_message q in
        ext ← match cq_data q with
              | SetExt ext => mret ext
              | _ => mthrow KeyError
              end;
        gateway (EditMessageReplyMarkup (chat_id (chat query_message))
                   (message_id query_message)
                   (minikb (lit "syntax") (lang_syntax_picker self))) ;;
        mret (reply_to_message query_message, ext)
    | None =>
        match snippet, ext with
        | Some snippet, Some (c :: ext) => mret (Some snippet, c :: ext)
        | _, _ =>
            mthrow
              (Exception "Either cb_query or both snippet and ext are required")
        end
    end;
  snippet ← match snippet : option Message with
            | Some snippet => mret snippet
            | None => mthrow AttributeError
            end;
  id_of (from_user snippet) ;;
  note (LogMsg "colorizing code") ;;
  let text_content :=
    if negb (is_private (chat snippet))
    then code_subcontent snippet
    else Some (text snippet) in
  let do_attach_send_kb := is_private (chat snippet) in
  for_each (themes_of snippet)
           (send_theme snippet text_content ext do_attach_send_kb) ;;
  match cb_query with
  | Some q => gateway (AnswerCallbackQuery (cq_id q))
  | None => mret tt
  end.

Definition set_snippet_filetype (cb_query : option CallbackQuery)
    (snippet : option Message) (ext : option str) : M unit :=
  retry (log_is_bindable self) (set_snippet_filetype_body cb_query snippet ext).

(** [self.group_syntaxes[chat_id]] *)
Definition group_syntax_of (chat_id : Z) : M str :=
  λ w, match group_syntaxes w !! chat_id with
       | Some ext => (Return ext, w)
       | None => (Raise KeyError, w)
       end.

(** The middle of [intake_snippet], from [code_specified_syntax] to the
    chat default: the syntax the handler settles on, if any. *)
Definition resolve (message : Message) (text_content : str)
    : M (option str) :=
  let ext := code_specified_syntax message in
  note (LogMsg "receiving code") ;;
  ext ← (if negb (truthy ext)
         then guess_ext text_content PROBABILITY_MIN
         else mret ext);
  if negb (truthy ext)
  then try_except
         (chat_default ← group_syntax_of (chat_id (chat message));
          mret (Some chat_default))
         is_KeyError (λ _, mret ext)
  else mret ext.

(** What [intake_snippet] does once the gate has let the message
    through: the rest of the handler. *)
Definition process_snippet (message : Message) : M unit :=
  match snippet_text message with
  | None => mret tt
  | Some text_content =>
      ext ← resolve message text_content;
      kb_msg ←
        match ext : option str with
        | Some (c :: ext) =>
            kb_msg ← gateway_returning
              (ReplyTo message
                 (lang_query_ext self ++ [10; 10]%N
                  ++ lang_guessed_syntax self (c :: ext))
                 (minikb (lit "syntax") (lang_syntax_picker self)));
            set_snippet_filetype None (Some message) (Some (c :: ext)) ;;
            mret kb_msg
        | _ =>
            gateway_returning
              (ReplyTo message (lang_query_ext self) (kb_syntax self))
        end;
      note (StartDeleteAfterDelay kb_msg 30)
  end.

Definition intake_snippet_body (message : Message) : M unit :=
  uid ← id_of (from_user message);
  go ← read (λ w, should_process w (chat_id (chat message)) uid);
  if negb go then mret tt else process_snippet message.

Definition intake_snippet (message : Message) : M unit :=
  retry (log_is_bindable self) (intake_snippet_body message).

End ColorCodeBot.

(** ** Handlers outside the snippet path

    The remaining handlers use gateway calls the snippet path has no use
    for. They run on a [Desk]: the [World], and the further calls asked
    so far, each stamped with the length of the world's trace at the time
    it was asked, so that the order of everything asked is kept. *)

Record InlineQuery := { iq_id : str; iq_from_user : User; iq_query : str }.

(** [InlineQueryResultCachedPhoto]; its [id] is a fresh uuid. *)
Inductive inline_result :=
| CachedPhoto (photo_file_id title : str).

Inductive further_call :=
| EditMessageText (body : str) (chat_id message_id : Z) (reply_markup : keyboard)
| SendMessage (chat_id : Z) (body : str) (reply_markup : keyboard)
| ReplyForcing (message : Message) (body : str) (input_field_placeholder : str)
| GetFile (file_id : str)
| AnswerInlineQuery (id : str) (results : list inline_result)
    (switch_pm : option (str * str)) (is_personal : bool).

Record Desk := {
  world : World;
  further : list (nat * further_call);
}.

(** The gateway's answers to the further calls, and what the key-value
    tables do on [del] for a key that is not stored: nothing ([None]) or
    an exception. The library of the tables is not among the sources. *)
Record Beyond := {
  file_info : list call → list (nat * further_call) → str → exn + str;
  further_done :
    list call → list (nat * further_call) → further_call → option exn;
  del_missing : option exn;
}.

(** The texts and keyboards of the configuration that only these handlers
    read; [self.kb] has the three keys [load_configs] gives it. *)
Record Panels := {
  lang_current_config : str → str → str;  (* .format(default_syntax, ignore_mode) *)
  lang_welcome : str;
  lang_input_field_placeholder : str;
  lang_switch_to_direct : str;
  kb_group_options : keyboard;
  kb_group_syntax : keyboard;
}.

Definition D (A : Type) : Type := Desk → outcome A * Desk.

#[global] Instance D_ret : MRet D := λ A a d, (Return a, d).

#[global] Instance D_bind : MBind D := λ A B f m d,
  match m d with
  | (Return a, d') => f a d'
  | (Raise e, d') => (Raise e, d')
  end.

#[global] Instance D_throw : MThrow exn D := λ A e d, (Raise e, d).

(** A handler of the snippet path, run at the desk. *)
Definition lift {A} (m : M A) : D A :=
  λ d, let (r, w') := m (world d) in
       (r, {| world := w'; further := further d |}).

Definition emit_further (c : further_call) (d : Desk) : Desk :=
  {| world := world d;
     further := further d ++ [(length (trace (world d)), c)] |}.

Definition try_except_D {A} (body : D A) (caught : exn → bool)
    (handler : exn → D A) : D A :=
  λ d, match body d with
       | (Raise e, d') => if caught e then handler e d' else (Raise e, d')
       | r => r
       end.

(** The [retry] decorator again, around a handler at the desk. *)
Fixpoint retry_loop_D {A} (has_logger : bool) (seconds : Z) (original : D A)
    (attempts attempt : nat) (last_error : exn) : D A :=
  match attempts with
  | O => mthrow last_error
  | S attempts' =>
      try_except_D original is_ConnectionError (λ e,
        lift (note (Sleep seconds)) ;;
        (if has_logger && bool_decide (0 < attempt)%nat
         then lift (note (LogMsg "called retry-able"))
         else mret tt) ;;
        retry_loop_D has_logger seconds original attempts' (S attempt) e)
  end.

Definition retry_D {A} (has_logger : bool) (original : D A) : D A :=
  retry_loop_D has_logger 3 original 6 0 UnboundLocalError.

(** [str(x)] of an [Optional[str]]. *)
Definition str_of_optional (o : option str) : str :=
  match o with
  | Some s => s
  | None => lit "None"
  end.

(** The part of [s] after the first occurrence of [sep], if there is one. *)
Fixpoint after_first (sep s : str) : option str :=
  if startswith s sep then Some (drop (length sep) s)
  else match s with
       | [] => None
       | _ :: s' => after_first sep s'
       end.

(** [s.split(sep, 1)[-1]] for a non-empty [sep]. *)
Definition last_of_split_once (sep s : str) : str :=
  default s (after_first sep s).

Definition set_ignore_mode (chat_id : Z) (flag : bool) (w : World) : World :=
  {| group_syntaxes := group_syntaxes w;
     ignore_mode_groups := <[chat_id := flag]> (ignore_mode_groups w);
     group_user_current_watchme_requests := group_user_current_watchme_requests w;
     trace := trace w |}.

Definition set_group_default (chat_id : Z) (ext : option str) (w : World)
    : World :=
  {| group_syntaxes :=
       match ext with
       | Some ext => <[chat_id := ext]> (group_syntaxes w)
       | None => delete chat_id (group_syntaxes w)
       end;
     ignore_mode_groups := ignore_mode_groups w;
     group_user_current_watchme_requests := group_user_current_watchme_requests w;
     trace := trace w |}.

(** [del self.group_syntaxes[chat_id]] *)
Definition del_group_syntax (missing : option exn) (chat_id : Z) : M unit :=
  λ w, match group_syntaxes w !! chat_id, missing with
       | None, Some e => (Raise e, w)
       | _, _ => (Return tt, set_group_default chat_id None w)
       end.

Section Settings.

Context (out : Outside) (beyond : Beyond) (self : Bot) (panels : Panels).

Definition gateway_further (c : further_call) : D unit :=
  λ d, match further_done beyond (trace (world d)) (further d) c with
       | None => (Return tt, emit_further c d)
       | Some e => (Raise e, emit_further c d)
       end.

(** [self.kb[name]] *)
Definition kb (name : str) : M keyboard :=
  if bool_decide (name = lit "syntax") then mret (kb_syntax self)
  else if bool_decide (name = lit "group options")
       then mret (kb_group_options panels)
  else if bool_decide (name = lit "group syntax")
       then mret (kb_group_syntax panels)
  else mthrow KeyError.

Definition delete_after_delay_body (message : Message) (delay : Z)
    (log : bool) : M unit :=
  note (Sleep delay) ;;
  try_except
    (gateway out (DeleteMessage (chat_id (chat message)) (message_id message)))
    is_ApiException
    (λ _, if log
          then note (LogMsg "failed to delete message (it's probably gone already)")
          else mret tt).

Definition delete_after_delay (message : Message) (delay : Z) (log : bool)
    : M unit :=
  retry false (delete_after_delay_body message delay log).

Definition get_group_config_md_body (chat_id : Z) : M str :=
  read (λ w,
    lang_current_config panels
      (str_of_optional (group_syntaxes w !! chat_id))
      (if default false (ignore_mode_groups w !! chat_id)
       then lit "ignore" else lit "watch")).

Definition get_group_config_md (chat_id : Z) : M str :=
  retry (log_is_bindable self) (get_group_config_md_body chat_id).

Definition switch_from_inline_body (inline_query : InlineQuery) : D unit :=
  lift (note (LogMsg "receiving inline query")) ;;
  gateway_further
    (AnswerInlineQuery (iq_id inline_query) []
       (Some (lang_switch_to_direct panels, lit "x")) false).

Definition switch_from_inline (inline_query : InlineQuery) : D unit :=
  retry_D (log_is_bindable self) (switch_from_inline_body inline_query).

Definition welcome_body (message : Message) : D unit :=
  lift (id_of (from_user message)) ;;
  lift (note (LogMsg "introducing myself")) ;;
  gateway_further
    (ReplyForcing message (lang_welcome panels)
       (lang_input_field_placeholder panels)).

Definition welcome (message : Message) : D unit :=
  retry_D (log_is_bindable self) (welcome_body message).

Definition manage_group_options_body (message : Message) : D unit :=
  is_admin_or_creator ←
    lift (is_from_group_admin_or_creator out (IsMessage message));
  lift (id_of (from_user message)) ;;
  lift (note (LogMsg "user requesting group options for viewing or changing")) ;;
  if (is_admin_or_creator : bool)
  then
    body ← lift (get_group_config_md (chat_id (chat message)));
    gateway_further
      (SendMessage (chat_id (chat message)) body (kb_group_options panels))
  else mret tt.

Definition manage_group_options (message : Message) : D unit :=
  retry_D (log_is_bindable self) (manage_group_options_body message).

Definition browse_group_syntax_body (cb_query : CallbackQuery) : M unit :=
  gateway out
    (EditMessageReplyMarkup (chat_id (chat (cq_message cb_query)))
       (message_id (cq_message cb_query)) (kb_group_syntax panels)).

Definition browse_group_syntax (cb_query : CallbackQuery) : M unit :=
  retry (log_is_bindable self) (browse_group_syntax_body cb_query).

(** The panel as it is shown again after a change. *)
Definition show_group_options (cb_query : CallbackQuery) : D unit :=
  let cid := chat_id (chat (cq_message cb_query)) in
  body ← lift (get_group_config_md cid);
  gateway_further
    (EditMessageText body cid (message_id (cq_message cb_query))
       (kb_group_options panels)).

Definition toggle_group_watch (cb_query : CallbackQuery) : D unit :=
  is_admin_or_creator ←
    lift (is_from_group_admin_or_creator out (IsCallbackQuery cb_query));
  lift (note (LogMsg "user trying to toggle group watch mode")) ;;
  if (is_admin_or_creator : bool)
  then
    let cid := chat_id (chat (cq_message cb_query)) in
    lift (write (λ w,
      set_ignore_mode cid
        (negb (default false (ignore_mode_groups w !! cid))) w)) ;;
    show_group_options cb_query
  else mret tt.

Definition set_group_syntax_body (cb_query : CallbackQuery) : D unit :=
  ext ← match cq_data cb_query with
        | SetDefaultExt ext => mret ext
        | _ => mthrow KeyError
        end;
  is_admin_or_creator ←
    lift (is_from_group_admin_or_creator out (IsCallbackQuery cb_query));
  lift (note (LogMsg "user trying to set group default syntax")) ;;
  if (is_admin_or_creator : bool)
  then
    let cid := chat_id (chat (cq_message cb_query)) in
    match ext : str with
    | [] => lift (del_group_syntax (del_missing beyond) cid)
    | _ :: _ => lift (write (set_group_default cid (Some ext)))
    end ;;
    show_group_options cb_query
  else mret tt.

Definition set_group_syntax (cb_query : CallbackQuery) : D unit :=
  retry_D (log_is_bindable self) (set_group_syntax_body cb_query).

Definition restore_kb_body (cb_query : CallbackQuery) : M unit :=
  kb_name ← match cq_data cb_query with
            | Restore kb_name => mret kb_name
            | _ => mthrow KeyError
            end;
  reply_markup ← kb kb_name;
  gateway out
    (EditMessageReplyMarkup (chat_id (chat (cq_message cb_query)))
       (message_id (cq_message cb_query)) reply_markup) ;;
  gateway out (AnswerCallbackQuery (cq_id cb_query)).

Definition restore_kb (cb_query : CallbackQuery) : M unit :=
  retry (log_is_bindable self) (restore_kb_body cb_query).

Definition send_photo_elsewhere_body (inline_query : InlineQuery) : D unit :=
  let file_id := last_of_split_once (lit "img ") (iq_query inline_query) in
  (λ d, match file_info beyond (trace (world d)) (further d) file_id with
        | inr _ => (Return tt, emit_further (GetFile file_id) d)
        | inl e => (Raise e, emit_further (GetFile file_id) d)
        end) ;;
  lift (note (LogMsg "creating inline query result")) ;;
  gateway_further
    (AnswerInlineQuery (iq_id inline_query)
       [CachedPhoto file_id (lit "Send Image")] None true).

Definition send_photo_elsewhere (inline_query : InlineQuery) : D unit :=
  retry_D (log_is_bindable self) (send_photo_elsewhere_body inline_query).

(** The callback handlers as [register_handlers] routes to them, by the
    [action] of the payload. *)
Definition on_callback_query (cb_query : CallbackQuery) : D unit :=
  match cq_data cb_query with
  | Restore _ => lift (restore_kb cb_query)
  | SetExt _ => lift (set_snippet_filetype out self (Some cb_query) None None)
  | SetDefaultExt _ => set_group_syntax cb_query
  | BrowseGroupSyntax => lift (browse_group_syntax cb_query)
  | ToggleWatchMode => toggle_group_watch cb_query
  | Begone => lift (begone out self cb_query)
  end.

(** The inline handlers: queries that start with [img ] first, then all
    the others. *)
Definition on_inline_query (inline_query : InlineQuery) : D unit :=
  if startswith (iq_query inline_query) (lit "img ")
  then send_photo_elsewhere inline_query
  else switch_from_inline inline_query.

End Settings.

(** ** [load_configs]: the keyboards *)

(** What the four yml files hold; a file that does not exist counts as
    an empty mapping. [syntaxes] keeps the order of its file. *)
Record ConfigFiles := {
  english : gmap str str;
  syntaxes : list (str * str);
  guesslang : gmap str str;
  silicon : gmap str str;
}.

Record Config := {
  cfg_lang : gmap str str;
  cfg_kb_syntax : keyboard;
  cfg_kb_group_options : keyboard;
  cfg_kb_group_syntax : keyboard;
  cfg_guesslang : gmap str str;
  cfg_silicon : gmap str str;
}.

(** [mapping[key]] *)
Definition getitem (mapping : gmap str str) (key : str) : exn + str :=
  match mapping !! key with
  | Some v => inr v
  | None => inl KeyError
  end.

Definition load_configs (files : ConfigFiles) : exn + Config :=
  let kb_syntax :=
    ((λ '(name, ext), CallbackButton name (SetExt ext)) <$> syntaxes files)
    ++ [BEGONE_BUTTON] in
  let kb_group_syntax :=
    ((λ '(name, ext), CallbackButton name (SetDefaultExt ext)) <$> syntaxes files)
    ++ [CallbackButton (lit "None") (SetDefaultExt []); BEGONE_BUTTON] in
  match getitem (english files) (lit "select default syntax") with
  | inl e => inl e
  | inr select_default_syntax =>
      match getitem (english files) (lit "toggle watch mode") with
      | inl e => inl e
      | inr toggle_watch_mode =>
          inr {| cfg_lang := english files;
                 cfg_kb_syntax := kb_syntax;
                 cfg_kb_group_options :=
                   [CallbackButton select_default_syntax BrowseGroupSyntax;
                    CallbackButton toggle_watch_mode ToggleWatchMode;
                    BEGONE_BUTTON];
                 cfg_kb_group_syntax := kb_group_syntax;
                 cfg_guesslang := guesslang files;
                 cfg_silicon := silicon files |}
      end
  end.

(** * Notions used in the statements *)

Inductive mode := Watch | Ignore.

(** The chat's mode as the store has it: a missing record is [Watch]. *)
Definition chat_mode (w : World) (chat_id : Z) : mode :=
  match ignore_mode_groups w !! chat_id with
  | Some true => Ignore
  | _ => Watch
  end.

Definition user_override (w : World) (chat_id user_id : Z) : option str :=
  group_user_current_watchme_requests w !! request_key chat_id user_id.

(** The table of the specification: in [Ignore] mode only an explicit
    ['watch'] is processed, in [Watch] mode all but an explicit
    ['ignore']. *)
Definition consent_table (m : mode) (override : option str) : bool :=
  match m with
  | Ignore => bool_decide (override = Some (lit "watch"))
  | Watch => negb (bool_decide (override = Some (lit "ignore")))
  end.

(** The spans of the message marked as [code] or [pre]. *)
Definition code_spans (message : Message) : list str :=
  entity_text message <$> List.filter is_code_entity (default [] (entities message)).

Definition whitespace_free (s : str) : Prop :=
  Forall (λ c, isspace c = false) s.

(** The answer of the prefix table read as a function: the ext of the
    first entry whose prefix the code starts with. *)
Fixpoint first_prefix (items : list (str * str)) (code : str) : option str :=
  match items with
  | [] => None
  | (start, ext) :: items' =>
      if startswith code start then Some ext else first_prefix items' code
  end.

Definition is_Probabilities (c : call) : bool :=
  match c with Probabilities _ => true | _ => false end.

(** The calls of the classifier in a trace. *)
Definition classifier_calls (tr : list call) : list call :=
  List.filter is_Probabilities tr.

(** The pre entities of a message, in the order of the message. *)
Definition pre_entities (message : Message) : list MessageEntity :=
  List.filter is_pre_entity (default [] (entities message)).

(** What the classifier answers when [resolve] asks it from world [w]. *)
Definition classifier_answer (out : Outside) (w : World) (text_content : str)
    : exn + list (str * float) :=
  classifier out (trace (emit (LogMsg "receiving code") w)) text_content.

Definition is_ReplyTo (c : call) : bool :=
  match c with ReplyTo _ _ _ => true | _ => false end.

(** The calls of a trace that satisfy [P], in order. *)
Definition calls (P : call → bool) (w : World) : list call :=
  List.filter P (trace w).

(** A handler is quiet about [P] when none of the calls it makes
    satisfies [P]. *)
Definition quiet {A} (P : call → bool) (m : M A) : Prop :=
  ∀ w, calls P (snd (m w)) = calls P w.

Definition is_Silicon (c : call) : bool :=
  match c with Silicon _ _ _ => true | _ => false end.

Definition is_DeleteMessage (c : call) : bool :=
  match c with DeleteMessage _ _ => true | _ => false end.

(** The snippet and the syntax [set_snippet_filetype] works on: those of
    the callback query when there is one, the arguments otherwise. *)
Definition settled (cb_query : option CallbackQuery) (snippet : option Message)
    (ext : option str) : option (Message * str) :=
  match cb_query with
  | Some q =>
      match cq_data q, reply_to_message (cq_message q) with
      | SetExt ext, Some snippet => Some (snippet, ext)
      | _, _ => None
      end
  | None =>
      match snippet, ext with
      | Some snippet, Some (c :: ext) => Some (snippet, c :: ext)
      | _, _ => None
      end
  end.

(** The text that is rendered for a snippet. *)
Definition rendered_text (snippet : Message) : option str :=
  if negb (is_private (chat snippet))
  then code_subcontent snippet
  else Some (text snippet).

Definition DARK : str := lit "Coldark-Dark".
Definition LIGHT : str := lit "Coldark-Cold".

(** An outside where no call fails, and where a message that says it is
    a photo has a photo. *)
Definition benign (out : Outside) : Prop :=
  (∀ tr code ext theme, ∃ png, renderer out tr code ext theme = inr png)
  ∧ (∀ tr png, ∃ size, file_size out tr png = inr size)
  ∧ (∀ tr c, ∃ m, gateway_message out tr c = inr m
                  ∧ (content_type m = lit "photo" → photo m ≠ []))
  ∧ (∀ tr c, gateway_done out tr c = None).

Definition is_upload (c : call) : bool :=
  match c with
  | SendPhoto _ _ _ | SendDocument _ _ _ => true
  | _ => false
  end.

(** The uploads among the calls [rest], asked after the calls [before],
    that the gateway accepted: the images that reached the chat. *)
Fixpoint delivered_from (out : Outside) (before rest : list call) : list call :=
  match rest with
  | [] => []
  | c :: rest' =>
      (if is_upload c
       then match gateway_message out before c with
            | inr _ => [c]
            | inl _ => []
            end
       else [])
      ++ delivered_from out (before ++ [c]) rest'
  end.

Definition delivered (out : Outside) (w : World) : list call :=
  delivered_from out [] (trace w).

(** The runs of the renderer on the light theme. *)
Definition is_light_render (c : call) : bool :=
  match c with
  | Silicon _ _ theme => bool_decide (theme = LIGHT)
  | _ => false
  end.

(** The author of the message the bot's message replies to, when both
    the replied-to message and its sender are there. *)
Definition reply_author (q : CallbackQuery) : option Z :=
  match reply_to_message (cq_message q) with
  | Some replied =>
      match from_user replied with
      | Some author => Some (user_id author)
      | None => None
      end
  | None => None
  end.

(** The moderation check on a callback query, for a given member status. *)
Definition can_moderate (q : CallbackQuery) (status : str) : bool :=
  is_private (chat (cq_message q)) || is_admin_status status.

(** The call that deletes the message under the pressed button. *)
Definition deletion_of (q : CallbackQuery) : call :=
  DeleteMessage (chat_id (chat (cq_message q))) (message_id (cq_message q)).

(** The question of the moderation check on a callback query. *)
Definition membership_of (q : CallbackQuery) : call :=
  GetChatMember (chat_id (chat (cq_message q))) (user_id (cq_from_user q)).

Definition is_GetChatMember (c : call) : bool :=
  match c with GetChatMember _ _ => true | _ => false end.

(** The moderation check on a callback query can be settled with
    [status]: the chat is private, where nothing is asked, or the gateway
    answers the question with [status] whenever it is asked. *)
Definition moderation_answers (out : Outside) (q : CallbackQuery) (status : str)
    : Prop :=
  is_private (chat (cq_message q)) = true
  ∨ ∀ tr, member_status out tr (chat_id (chat (cq_message q)))
            (user_id (cq_from_user q)) = inr status.

Definition is_Sleep (c : call) : bool :=
  match c with Sleep _ => true | _ => false end.

Definition is_SendPhoto (c : call) : bool :=
  match c with SendPhoto _ _ _ => true | _ => false end.

(** A piece of text with no whitespace in it and at least one
    character. *)
Definition one_word (s : str) : Prop := s ≠ [] ∧ whitespace_free s.

(** The three tables of a world. *)
Definition stores (w : World)
    : gmap Z str * gmap Z bool * gmap str str :=
  (group_syntaxes w, ignore_mode_groups w, group_user_current_watchme_requests w).

(** The chat a message or a callback query belongs to, and who sent it. *)
Definition chat_of (x : message_or_query) : Chat :=
  match x with
  | IsMessage message => chat message
  | IsCallbackQuery query => chat (cq_message query)
  end.

Definition sender_of (x : message_or_query) : option Z :=
  match x with
  | IsMessage message => user_id <$> from_user message
  | IsCallbackQuery query => Some (user_id (cq_from_user query))
  end.

(** The world after some more calls. *)
Definition after (w : World) (cs : list call) : World :=
  foldl (λ w c, emit c w) w cs.

(** A handler keeps the tables when it changes none of the three. *)
Definition keeps {A} (m : M A) : Prop := ∀ w, stores (snd (m w)) = stores w.

(** Someone who passes the moderation check whenever it is made: the
    chat is private, or the gateway says [administrator] or [creator]. *)
Definition always_moderator (out : Outside) (x : message_or_query) : Prop :=
  is_private (chat_of x) = true
  ∨ ∃ uid status,
      sender_of x = Some uid
      ∧ (∀ tr, member_status out tr (chat_id (chat_of x)) uid = inr status)
      ∧ is_admin_status status = true.

(** Someone who fails it whenever it is made. *)
Definition never_moderator (out : Outside) (x : message_or_query) : Prop :=
  is_private (chat_of x) = false
  ∧ ∃ uid status,
      sender_of x = Some uid
      ∧ (∀ tr, member_status out tr (chat_id (chat_of x)) uid = inr status)
      ∧ is_admin_status status = false.

(** The world once the moderation check has been made. *)
Definition checked (x : message_or_query) (w : World) : World :=
  if is_private (chat_of x) then w
  else match sender_of x with
       | Some uid => emit (GetChatMember (chat_id (chat_of x)) uid) w
       | None => w
       end.

(** The text of the settings panel for the tables of a world. *)
Definition config_text (panels : Panels) (w : World) (chat_id : Z) : str :=
  lang_current_config panels
    (str_of_optional (group_syntaxes w !! chat_id))
    (if default false (ignore_mode_groups w !! chat_id)
     then lit "ignore" else lit "watch").

Definition flip (m : mode) : mode :=
  match m with Watch => Ignore | Ignore => Watch end.

(** A gateway that accepts every further call. *)
Definition obliging (beyond : Beyond) : Prop :=
  (∀ tr fs c, further_done beyond tr fs c = None)
  ∧ (∀ tr fs file_id, ∃ info, file_info beyond tr fs file_id = inr info).

Definition button_action (b : button) : option action :=
  match b with
  | CallbackButton _ data => Some data
  | SwitchInlineButton _ _ => None
  end.

Definition is_StartDeleteAfterDelay (c : call) : bool :=
  match c with StartDeleteAfterDelay _ _ => true | _ => false end.

(** The prompt [intake_snippet] replies with once the syntax is known. *)
Definition prompt (self : Bot) (message : Message) (ext : str) : call :=
  ReplyTo message
    (lang_query_ext self ++ [10; 10]%N ++ lang_guessed_syntax self ext)
    (minikb (lit "syntax") (lang_syntax_picker self)).

Definition announce (snippet : Message) : call :=
  SendChatAction (chat_id (chat snippet)) (lit "upload_photo").

Definition photo_of (snippet : Message) (png_path : str) : call :=
  SendPhoto (chat_id (chat snippet)) png_path (message_id snippet).

(** The calls of one attempt of [send_image] that ends at the photo. *)
Definition upload (snippet : Message) (png_path : str) : list call :=
  [announce snippet; StatSize png_path; photo_of snippet png_path].

(** The calls of one attempt of [set_snippet_filetype] when no attempt of
    [send_image] gets past the photo. *)
Definition render_once (snippet : Message) (ext png_path : str) : list call :=
  [LogMsg "colorizing code"; Silicon (rendered_text snippet) ext DARK]
  ++ concat (replicate 6 (upload snippet png_path)).

(** The calls of one attempt of [intake_snippet] when no attempt of
    [set_snippet_filetype] succeeds. *)
Definition intake_once (self : Bot) (message : Message) (ext png_path : str)
    : list call :=
  [LogMsg "receiving code"; prompt self message ext]
  ++ concat (replicate 6 (render_once message ext png_path)).

(** * Sample messages, worlds and outsides *)

Definition alice : User := {| user_id := 7; first_name := lit "Alice" |}.

Definition private_chat : Chat := {| chat_id := 7; chat_type := lit "private" |}.

Definition group_chat : Chat :=
  {| chat_id := -1001; chat_type := lit "supergroup" |}.

Definition bot_reply : Message :=
  mkMessage 100 None group_chat (lit "text") (lit "ok") None None [].

(** An outside where every call succeeds, and the classifier is unsure. *)
Definition calm : Outside := {|
  member_status := λ _ _ _, inr (lit "member");
  classifier := λ _ _, inr [(lit "JSON", 0x1.999999999999ap-5%float)];
  renderer := λ _ _ _ _, inr (lit "/tmp/ccb_png/a/b.png");
  file_size := λ _ _, inr 1000;
  gateway_message := λ _ _, inr bot_reply;
  gateway_done := λ _ _, None |}.

Definition demo_bot : Bot := {|
  lang_query_ext := lit "Which syntax?";
  lang_guessed_syntax := λ ext, lit "Guessed " ++ ext;
  lang_syntax_picker := lit "...";
  lang_send_to_chat := lit "Send to chat";
  kb_syntax := [CallbackButton (lit "Python") (SetExt (lit "py")); BEGONE_BUTTON];
  guesslang_syntaxes := {[ lit "JSON" := lit "json" ]};
  silicon_syntaxes := {[ lit "python3" := lit "py" ]};
  log_is_bindable := true |}.

Definition fresh : World := {|
  group_syntaxes := ∅;
  ignore_mode_groups := ∅;
  group_user_current_watchme_requests := ∅;
  trace := [] |}.

Definition php_text : str := lit "<?php echo 1;".

Definition python_block : MessageEntity :=
  {| ent_type := lit "pre"; ent_offset := 0; ent_length := 20;
     ent_language := Some (lit "python3") |}.

Definition group_snippet : Message :=
  mkMessage 11 (Some alice) group_chat (lit "text")
    (lit "print('hello world')") (Some [python_block]) None [].

Definition private_snippet : Message :=
  mkMessage 12 (Some alice) private_chat (lit "text")
    (lit "{ 'a': 1 }") None None [].

(** A group in ignore mode where Alice asked to be watched. *)
Definition opted_in : World := {|
  group_syntaxes := ∅;
  ignore_mode_groups := {[ -1001 := true ]};
  group_user_current_watchme_requests :=
    {[ request_key (-1001) 7 := lit "watch" ]};
  trace := [] |}.

(** The [/ignoreme] command, sent in a private chat. *)
Definition private_ignoreme : Message :=
  mkMessage 4 (Some alice) private_chat (lit "text") (lit "/ignoreme")
    (Some [{| ent_type := lit "bot_command"; ent_offset := 0; ent_length := 9;
              ent_language := None |}]) None [].

Definition after_ignoreme : World :=
  snd (ignore_group_user demo_bot private_ignoreme fresh).

(** A group message whose only code span is the single word [print]. *)
Definition one_word_message : Message :=
  mkMessage 13 (Some alice) group_chat (lit "text") (lit "try print here")
    (Some [{| ent_type := lit "code"; ent_offset := 4; ent_length := 5;
              ent_language := None |}]) None [].

Definition plain_block : MessageEntity :=
  {| ent_type := lit "pre"; ent_offset := 0; ent_length := 5;
     ent_language := None |}.

Definition tagged_block : MessageEntity :=
  {| ent_type := lit "pre"; ent_offset := 6; ent_length := 20;
     ent_language := Some (lit "python3") |}.

(** A message with two blocks: the first without a language, the second
    tagged [python3]. *)
Definition two_blocks : Message :=
  mkMessage 14 (Some alice) group_chat (lit "text")
    (lit "a = 1" ++ [10]%N ++ lit "print('hello world')")
    (Some [plain_block; tagged_block]) None [].

Definition two_blocks_text : str :=
  lit "a = 1" ++ [10; 10]%N ++ lit "print('hello world')".

(** An outside whose classifier is sure of a language the table lacks. *)
Definition sure_of_cobol : Outside := {|
  member_status := member_status calm;
  classifier := λ _ _, inr [(lit "COBOL", 0x1.ccccccccccccdp-1%float)];
  renderer := renderer calm;
  file_size := file_size calm;
  gateway_message := gateway_message calm;
  gateway_done := gateway_done calm |}.

(** An outside whose classifier is unsure, of a language the table
    lacks. *)
Definition unsure_of_cobol : Outside := {|
  member_status := member_status calm;
  classifier := λ _ _, inr [(lit "COBOL", 0x1.999999999999ap-5%float)];
  renderer := renderer calm;
  file_size := file_size calm;
  gateway_message := gateway_message calm;
  gateway_done := gateway_done calm |}.

(** An outside whose classifier is sure, of a language the table has. *)
Definition sure_of_json : Outside := {|
  member_status := member_status calm;
  classifier := λ _ _, inr [(lit "JSON", 0x1.ccccccccccccdp-1%float)];
  renderer := renderer calm;
  file_size := file_size calm;
  gateway_message := gateway_message calm;
  gateway_done := gateway_done calm |}.

(** An outside whose classifier fails. *)
Definition classifier_down : Outside := {|
  member_status := member_status calm;
  classifier := λ _ _, inl (Exception "classifier unavailable");
  renderer := renderer calm;
  file_size := file_size calm;
  gateway_message := gateway_message calm;
  gateway_done := gateway_done calm |}.

(** An outside whose renderer fails on the dark theme only. *)
Definition dark_fails : Outside := {|
  member_status := member_status calm;
  classifier := classifier calm;
  renderer := λ _ _ _ theme,
    if bool_decide (theme = DARK) then inl ProcessExecutionError
    else inr (lit "/tmp/ccb_png/a/b.png");
  file_size := file_size calm;
  gateway_message := gateway_message calm;
  gateway_done := gateway_done calm |}.

(** An outside that refuses every upload. *)
Definition upload_refused : Outside := {|
  member_status := member_status calm;
  classifier := classifier calm;
  renderer := renderer calm;
  file_size := file_size calm;
  gateway_message := λ _ c,
    match c with
    | SendPhoto _ _ _ | SendDocument _ _ _ => inl ApiException
    | _ => inr bot_reply
    end;
  gateway_done := gateway_done calm |}.

(** An outside that has no connection for six uploads of a photo in a
    row, the ones after the first [first] uploads, and accepts every other
    call. *)
Definition uploads_fail_from (first : nat) : Outside := {|
  member_status := member_status calm;
  classifier := classifier calm;
  renderer := renderer calm;
  file_size := file_size calm;
  gateway_message := λ tr c,
    match c with
    | SendPhoto _ _ _ =>
        let asked := length (List.filter is_upload tr) in
        if (first <=? asked)%nat && (asked <? first + 6)%nat
        then inl ConnectionError
        else inr bot_reply
    | _ => inr bot_reply
    end;
  gateway_done := gateway_done calm |}.

Definition carol : User := {| user_id := 9; first_name := lit "Carol" |}.

(** The bot's image, posted in the group as a reply to Alice's snippet. *)
Definition bot_image : Message :=
  mkMessage 101 None group_chat (lit "photo") [] None (Some group_snippet)
    [lit "file-1"].

(** The same image when the snippet it replied to is gone. *)
Definition orphan_image : Message :=
  mkMessage 101 None group_chat (lit "photo") [] None None [lit "file-1"].

Definition carol_begone : CallbackQuery :=
  {| cq_id := lit "q1"; cq_from_user := carol; cq_message := bot_image;
     cq_data := Begone |}.

Definition carol_begone_orphan : CallbackQuery :=
  {| cq_id := lit "q2"; cq_from_user := carol; cq_message := orphan_image;
     cq_data := Begone |}.

(** An outside where whoever is asked about is an administrator. *)
Definition all_admins : Outside := {|
  member_status := λ _ _ _, inr (lit "administrator");
  classifier := classifier calm;
  renderer := renderer calm;
  file_size := file_size calm;
  gateway_message := gateway_message calm;
  gateway_done := gateway_done calm |}.

(** An outside that cannot reach the gateway. *)
Definition offline : Outside := {|
  member_status := λ _ _ _, inl ConnectionError;
  classifier := classifier calm;
  renderer := renderer calm;
  file_size := file_size calm;
  gateway_message := λ _ _, inl ConnectionError;
  gateway_done := λ _ _, Some ConnectionError |}.

(** An outside where the message to delete is gone already. *)
Definition already_gone : Outside := {|
  member_status := member_status calm;
  classifier := classifier calm;
  renderer := renderer calm;
  file_size := file_size calm;
  gateway_message := gateway_message calm;
  gateway_done := λ _ c,
    match c with
    | DeleteMessage _ _ => Some ApiException
    | _ => None
    end |}.

(** An outside whose images are too large for a photo. *)
Definition large_images : Outside := {|
  member_status := member_status calm;
  classifier := classifier calm;
  renderer := renderer calm;
  file_size := λ _ _, inr 450000;
  gateway_message := gateway_message calm;
  gateway_done := gateway_done calm |}.

(** An outside that refuses a photo but takes a document. *)
Definition upload_refused_once : Outside := {|
  member_status := member_status calm;
  classifier := classifier calm;
  renderer := renderer calm;
  file_size := file_size calm;
  gateway_message := λ _ c,
    match c with
    | SendPhoto _ _ _ => inl ApiException
    | _ => inr bot_reply
    end;
  gateway_done := gateway_done calm |}.

(** A group message with two inline code spans of one word each. *)
Definition two_words_message : Message :=
  mkMessage 15 (Some alice) group_chat (lit "text") (lit "run git then push")
    (Some [{| ent_type := lit "code"; ent_offset := 4; ent_length := 3;
              ent_language := None |};
           {| ent_type := lit "code"; ent_offset := 13; ent_length := 4;
              ent_language := None |}]) None [].

(** A group in ignore mode where nobody has asked for anything. *)
Definition ignoring_group : World := {|
  group_syntaxes := ∅;
  ignore_mode_groups := {[ -1001 := true ]};
  group_user_current_watchme_requests := ∅;
  trace := [] |}.

(** A gateway that takes every further call; [del] on a key that is not
    stored raises [KeyError]. *)
Definition silent : Beyond := {|
  file_info := λ _ _ _, inr (lit "file info");
  further_done := λ _ _ _, None;
  del_missing := Some KeyError |}.

Definition demo_panels : Panels := {|
  lang_current_config := λ default_syntax ignore_mode,
    lit "default: " ++ default_syntax ++ lit ", mode: " ++ ignore_mode;
  lang_welcome := lit "Send me code";
  lang_input_field_placeholder := lit "code";
  lang_switch_to_direct := lit "Chat with me";
  kb_group_options :=
    [CallbackButton (lit "Default syntax") BrowseGroupSyntax;
     CallbackButton (lit "Toggle") ToggleWatchMode; BEGONE_BUTTON];
  kb_group_syntax :=
    [CallbackButton (lit "Python") (SetDefaultExt (lit "py"));
     CallbackButton (lit "None") (SetDefaultExt []); BEGONE_BUTTON] |}.

Definition fresh_desk : Desk := {| world := fresh; further := [] |}.

(** The settings panel of the group, as the bot posted it. *)
Definition settings_panel : Message :=
  mkMessage 102 None group_chat (lit "text") (lit "settings") None None [].

Definition carol_toggle : CallbackQuery :=
  {| cq_id := lit "q3"; cq_from_user := carol; cq_message := settings_panel;
     cq_data := ToggleWatchMode |}.

Definition carol_sets_python : CallbackQuery :=
  {| cq_id := lit "q4"; cq_from_user := carol; cq_message := settings_panel;
     cq_data := SetDefaultExt (lit "py") |}.

Definition carol_clears_default : CallbackQuery :=
  {| cq_id := lit "q5"; cq_from_user := carol; cq_message := settings_panel;
     cq_data := SetDefaultExt [] |}.

(** A group message with one untagged code span. *)
Definition plain_group_message : Message :=
  mkMessage 16 (Some alice) group_chat (lit "text") (lit "x = 1")
    (Some [{| ent_type := lit "code"; ent_offset := 0; ent_length := 5;
              ent_language := None |}]) None [].

(** Alice presses the restore button under a minimized syntax keyboard. *)
Definition alice_restores : CallbackQuery :=
  {| cq_id := lit "q6"; cq_from_user := alice; cq_message := bot_reply;
     cq_data := Restore (lit "syntax") |}.

(** The inline query behind the send button of an image. *)
Definition share_image : InlineQuery :=
  {| iq_id := lit "iq1"; iq_from_user := alice;
     iq_query := lit "img file-1" |}.

(** The four files of a small installation. *)
Definition demo_files : ConfigFiles := {|
  english := {[ lit "select default syntax" := lit "Default syntax";
                lit "toggle watch mode" := lit "Toggle" ]};
  syntaxes := [(lit "Python", lit "py"); (lit "JSON", lit "json")];
  guesslang := {[ lit "JSON" := lit "json" ]};
  silicon := {[ lit "python3" := lit "py" ]} |}.

(** What [load_configs] makes of them. *)
Definition demo_config : Config := {|
  cfg_lang := english demo_files;
  cfg_kb_syntax :=
    [CallbackButton (lit "Python") (SetExt (lit "py"));
     CallbackButton (lit "JSON") (SetExt (lit "json")); BEGONE_BUTTON];
  cfg_kb_group_options :=
    [CallbackButton (lit "Default syntax") BrowseGroupSyntax;
     CallbackButton (lit "Toggle") ToggleWatchMode; BEGONE_BUTTON];
  cfg_kb_group_syntax :=
    [CallbackButton (lit "Python") (SetDefaultExt (lit "py"));
     CallbackButton (lit "JSON") (SetDefaultExt (lit "json"));
     CallbackButton (lit "None") (SetDefaultExt []); BEGONE_BUTTON];
  cfg_guesslang := guesslang demo_files;
  cfg_silicon := silicon demo_files |}.

(** An outside where no photo can be uploaded for want of a connection. *)
Definition no_uploads : Outside := {|
  member_status := member_status calm;
  classifier := classifier calm;
  renderer := renderer calm;
  file_size := file_size calm;
  gateway_message := λ _ c,
    match c with
    | SendPhoto _ _ _ => inl ConnectionError
    | _ => inr bot_reply
    end;
  gateway_done := gateway_done calm |}.

(** * Properties *)

(** ** Running handlers: the equations of the monad *)

(** Unfold the operations of the monad. *)
Ltac run :=
  cbv beta iota zeta delta
    [mbind M_bind mret M_ret mthrow M_throw note read write id_of].

Lemma run_bind {A B} (m : M A) (f : A → M B) (w : World) :
  (m ≫= f) w = match m w with
               | (Return a, w') => f a w'
               | (Raise e, w') => (Raise e, w')
               end.
Proof. reflexivity. Qed.

(** A sequence that returns has returned at each step. *)
Lemma bind_Return {A B} (m : M A) (f : A → M B) w b w' :
  (m ≫= f) w = (Return b, w') →
  ∃ a w1, m w = (Return a, w1) ∧ f a w1 = (Return b, w').
Proof.
  rewrite run_bind. destruct (m w) as [[a|e] w1]; [|done]. by exists a, w1.
Qed.

Lemma run_ret {A} (a : A) (w : World) : (mret a : M A) w = (Return a, w).
Proof. reflexivity. Qed.

Lemma retry_loop_S {A} has_logger seconds (original : M A) n attempt last_error :
  retry_loop has_logger seconds original (S n) attempt last_error
  = try_except original is_ConnectionError (λ e,
      note (Sleep seconds) ;;
      (if has_logger && bool_decide (0 < attempt)%nat
       then note (LogMsg "called retry-able")
       else mret tt) ;;
      retry_loop has_logger seconds original n (S attempt) e).
Proof. reflexivity. Qed.

(** A handler that returns at its first attempt is not retried. *)
Lemma retry_Return {A} (has_logger : bool) (original : M A) w a w' :
  original w = (Return a, w') → retry has_logger original w = (Return a, w').
Proof. intros H. unfold retry. simpl. unfold try_except. by rewrite H. Qed.

(** An exception other than [ConnectionError] leaves [retry] at once. *)
Lemma retry_Raise {A} (has_logger : bool) (original : M A) w e w' :
  original w = (Raise e, w') → is_ConnectionError e = false →
  retry has_logger original w = (Raise e, w').
Proof.
  intros H He. unfold retry. simpl. unfold try_except. by rewrite H, He.
Qed.

(** ** The watch/ignore gate *)

Lemma should_process_table w chat_id user_id :
  should_process w chat_id user_id
  = consent_table (chat_mode w chat_id) (user_override w chat_id user_id).
Proof.
  unfold should_process, consent_table, chat_mode, user_override.
  destruct (ignore_mode_groups w !! chat_id) as [[]|]; simpl;
    destruct (group_user_current_watchme_requests w !! _) as [o|]; simpl;
    try reflexivity.
  all: try (f_equal); apply bool_decide_ext; split; congruence.
Qed.

Lemma intake_snippet_body_gate out self message w :
  intake_snippet_body out self message w
  = match from_user message with
    | None => (Raise AttributeError, w)
    | Some u =>
        if should_process w (chat_id (chat message)) (user_id u)
        then process_snippet out self message w
        else (Return tt, w)
    end.
Proof.
  unfold intake_snippet_body. destruct (from_user message) as [u|]; simpl.
  - rewrite run_bind. simpl. rewrite run_bind. unfold read.
    by destruct (should_process _ _ _).
  - reflexivity.
Qed.

Lemma intake_snippet_blocked out self message u w :
  from_user message = Some u →
  should_process w (chat_id (chat message)) (user_id u) = false →
  intake_snippet out self message w = (Return tt, w).
Proof.
  intros Hu Hgo. apply retry_Return.
  by rewrite intake_snippet_body_gate, Hu, Hgo.
Qed.

Lemma intake_snippet_allowed out self message u w :
  from_user message = Some u →
  should_process w (chat_id (chat message)) (user_id u) = true →
  intake_snippet_body out self message w = process_snippet out self message w.
Proof. intros Hu Hgo. by rewrite intake_snippet_body_gate, Hu, Hgo. Qed.

(** C1: whether [intake_snippet] goes on with a message is decided by the
    chat's mode and the sender's override alone, as the table says. In
    [Ignore] mode the message is processed exactly when the override is
    ['watch'] (so not when it is absent); in [Watch] mode, which is also
    the mode of a chat without a record, it is processed unless the
    override is ['ignore'] (so also when it is absent). A message that is
    not processed leaves the handler at once, with nothing asked of the
    outside. *)
Theorem consent_gate_matches_table out self message u w :
  from_user message = Some u →
  let cid := chat_id (chat message) in
  let uid := user_id u in
  let go := should_process w cid uid in
  go = consent_table (chat_mode w cid) (user_override w cid uid)
  ∧ (ignore_mode_groups w !! cid = None → chat_mode w cid = Watch)
  ∧ (chat_mode w cid = Ignore →
       (go = true ↔ user_override w cid uid = Some (lit "watch"))
       ∧ (user_override w cid uid = None → go = false))
  ∧ (chat_mode w cid = Watch →
       (go = false ↔ user_override w cid uid = Some (lit "ignore"))
       ∧ (user_override w cid uid = None → go = true))
  ∧ (go = false → intake_snippet out self message w = (Return tt, w))
  ∧ (go = true →
       intake_snippet_body out self message w
       = process_snippet out self message w).
Proof.
  intros Hu cid uid go. subst go.
  rewrite should_process_table. split; [done|]. split.
  { unfold chat_mode. by intros ->. }
  split.
  { intros ->. simpl. split; [|by intros ->].
    apply bool_decide_eq_true. }
  split.
  { intros ->. simpl. split; [|by intros ->].
    rewrite negb_false_iff. apply bool_decide_eq_true. }
  rewrite <- should_process_table. split.
  - by apply intake_snippet_blocked.
  - by apply intake_snippet_allowed.
Qed.

Lemma consent_gate_matches_table_witness :
  should_process opted_in (-1001) 7 = consent_table Ignore (Some (lit "watch"))
  ∧ should_process opted_in (-1001) 7 = true.
Proof.
  split; [|reflexivity].
  exact (proj1 (consent_gate_matches_table calm demo_bot group_snippet alice
                  opted_in eq_refl)).
Defined.

(** C6, as stated, fails: the gate of [intake_snippet] does not look at
    the chat type. After [/ignoreme] in a private chat the override
    ['ignore'] is stored for it, and the next private snippet is dropped
    without a reply, while the same snippet is processed in a fresh
    world. *)
Lemma private_chat_can_be_silenced :
  is_private (chat private_snippet) = true
  ∧ user_override after_ignoreme 7 7 = Some (lit "ignore")
  ∧ should_process after_ignoreme 7 7 = false
  ∧ intake_snippet calm demo_bot private_snippet after_ignoreme
    = (Return tt, after_ignoreme)
  ∧ trace (snd (intake_snippet calm demo_bot private_snippet fresh)) ≠ [].
Proof. vm_compute. repeat split; discriminate. Qed.

(** C6, amended: a private chat passes through the same gate as a group.
    Its message is processed exactly when the table allows it, which is
    the case whenever neither an ignore-mode record nor an override is
    stored for the chat; a message the table refuses is dropped. What a
    private chat is spared is the extraction of code spans: its whole
    text is the snippet. *)
Theorem private_chat_consent out self message u w :
  is_private (chat message) = true →
  from_user message = Some u →
  let cid := chat_id (chat message) in
  let go := consent_table (chat_mode w cid) (user_override w cid (user_id u)) in
  intake_snippet_body out self message w
  = (if go then process_snippet out self message w else (Return tt, w))
  ∧ (go = false → intake_snippet out self message w = (Return tt, w))
  ∧ (ignore_mode_groups w !! cid = None →
     user_override w cid (user_id u) = None → go = true)
  ∧ snippet_text message = Some (text message).
Proof.
  intros Hp Hu cid go. subst go cid.
  rewrite <- should_process_table. repeat split.
  - by rewrite intake_snippet_body_gate, Hu.
  - by apply intake_snippet_blocked.
  - intros Hm Ho. rewrite should_process_table.
    unfold chat_mode. by rewrite Hm, Ho.
  - unfold snippet_text. by rewrite Hp.
Qed.

Lemma private_chat_consent_witness :
  intake_snippet_body calm demo_bot private_snippet fresh
  = process_snippet calm demo_bot private_snippet fresh.
Proof.
  exact (proj1 (private_chat_consent calm demo_bot private_snippet alice fresh
                  eq_refl eq_refl)).
Defined.

(** ** Extraction of the snippet in a group chat *)

Lemma split_from_whitespace_free s :
  whitespace_free s → ∀ cur, (length (split_from cur s) ≤ 1)%nat.
Proof.
  induction 1 as [|c s Hc _ IH]; intros cur; simpl.
  - destruct cur; simpl; lia.
  - rewrite Hc. apply IH.
Qed.

Lemma code_subcontent_spans message :
  code_subcontent message
  = match code_spans message with
    | [] => None
    | spans =>
        if bool_decide (1 < length (split (join [10; 10]%N spans)))%nat
        then Some (join [10; 10]%N spans)
        else None
    end.
Proof.
  unfold code_subcontent, code_spans.
  destruct (entities message) as [[|e ents]|]; try reflexivity.
  change (default [] (Some (e :: ents))) with (e :: ents).
  destruct (List.filter is_code_entity (e :: ents)); reflexivity.
Qed.

Lemma code_subcontent_Some message c :
  code_subcontent message = Some c → c = join [10; 10]%N (code_spans message).
Proof.
  rewrite code_subcontent_spans.
  destruct (code_spans message) as [|s spans]; [done|].
  cbv zeta. case_bool_decide; congruence.
Qed.

Lemma code_subcontent_None message :
  code_spans message = []
  ∨ whitespace_free (join [10; 10]%N (code_spans message)) →
  code_subcontent message = None.
Proof.
  rewrite code_subcontent_spans. intros [->|Hfree]; [done|].
  destruct (code_spans message) as [|s spans]; [done|].
  cbv zeta. rewrite bool_decide_eq_false_2; [done|].
  pose proof (split_from_whitespace_free _ Hfree []). unfold split. lia.
Qed.

(** C7: in a chat that is not private the snippet is made of the spans
    marked [code] or [pre] and of nothing else; when there is no such
    span, or when what was extracted is one word without whitespace, the
    handler returns before the syntax is looked for: nothing is asked of
    the classifier, nothing is sent, the world is as it was. *)
Theorem group_message_extraction out self message w :
  is_private (chat message) = false →
  (∀ c, snippet_text message = Some c →
        c = join [10; 10]%N (code_spans message))
  ∧ (code_spans message = []
     ∨ whitespace_free (join [10; 10]%N (code_spans message)) →
     intake_snippet out self message w
     = (match from_user message with
        | Some _ => Return tt
        | None => Raise AttributeError
        end, w)).
Proof.
  intros Hgroup. split.
  - intros c. unfold snippet_text. rewrite Hgroup. simpl.
    destruct (code_subcontent message) as [[|c0 s]|] eqn:Hsub; [done| |done].
    intros [= <-]. by apply code_subcontent_Some.
  - intros Hnone%code_subcontent_None.
    assert (Hrest : process_snippet out self message w = (Return tt, w)).
    { unfold process_snippet, snippet_text. by rewrite Hgroup, Hnone. }
    destruct (from_user message) as [u|] eqn:Hu.
    + apply retry_Return. rewrite intake_snippet_body_gate, Hu, Hrest.
      by destruct (should_process _ _ _).
    + apply retry_Raise; [|done]. by rewrite intake_snippet_body_gate, Hu.
Qed.

Lemma group_message_extraction_witness :
  code_spans one_word_message = [lit "print"]
  ∧ intake_snippet calm demo_bot one_word_message fresh = (Return tt, fresh).
Proof.
  split; [reflexivity|].
  apply (group_message_extraction calm demo_bot one_word_message fresh eq_refl).
  right. vm_compute. repeat constructor.
Defined.

(** ** Settling the syntax *)

Lemma simple_guess_run items code w :
  simple_guess items code w
  = match first_prefix items code with
    | Some ext => (Return (Some ext), emit (LogMsg "simple-guessed syntax") w)
    | None => (Return None, w)
    end.
Proof.
  induction items as [|[start ext] items IH]; simpl; [done|].
  destruct (startswith code start); [done|apply IH].
Qed.

(** [first_prefix] answers with the earliest matching entry. *)
Lemma first_prefix_Some items code ext :
  first_prefix items code = Some ext ↔
  ∃ i start,
    items !! i = Some (start, ext) ∧ startswith code start = true
    ∧ ∀ j start' ext', (j < i)%nat → items !! j = Some (start', ext') →
                        startswith code start' = false.
Proof.
  induction items as [|[start0 ext0] items IH]; simpl.
  - split; [done|]. by intros (i & start & Hi & _).
  - destruct (startswith code start0) eqn:H0.
    + split.
      * intros [= <-]. exists 0%nat, start0. repeat split; [done|]. lia.
      * intros (i & start & Hi & Hs & Hmin). destruct i as [|i].
        { simpl in Hi. congruence. }
        specialize (Hmin 0%nat start0 ext0 ltac:(lia) eq_refl). congruence.
    + rewrite IH. split.
      * intros (i & start & Hi & Hs & Hmin). exists (S i), start.
        repeat split; [done..|]. intros [|j] start' ext' Hj Hl.
        { simpl in Hl. congruence. }
        apply (Hmin j start' ext'); [lia|done].
      * intros (i & start & Hi & Hs & Hmin). destruct i as [|i].
        { simpl in Hi. congruence. }
        exists i, start. repeat split; [done..|]. intros j start' ext' Hj Hl.
        apply (Hmin (S j) start' ext'); [lia|done].
Qed.

(** A text that starts with some entry's prefix gets an answer. *)
Lemma first_prefix_is_Some items code start ext :
  (start, ext) ∈ items → startswith code start = true →
  is_Some (first_prefix items code).
Proof.
  induction items as [|[start0 ext0] items IH]; simpl.
  - by intros ?%elem_of_nil.
  - intros [[= <- <-]|Hin]%elem_of_cons Hs.
    + by rewrite Hs.
    + destruct (startswith code start0); [done|by apply IH].
Qed.

(** No entry of the table answers with the empty string. *)
Lemma first_prefix_PREFIXES_truthy code ext :
  first_prefix PREFIXES code = Some ext → truthy (Some ext) = true.
Proof.
  unfold PREFIXES. simpl.
  repeat (match goal with
          | |- context [if ?b then _ else _] => destruct b
          end; [by intros [= <-]|]).
  done.
Qed.

(** C5: the prefix table is tried in the order it is written. With the
    classifier below the threshold, [guess_ext] answers ["php"] for the
    text ["<?php echo 1;"], although the text also starts with ["<"],
    which stands later in the table and maps to ["xml"]. *)
Theorem guess_ext_php_before_xml out self w syntax probability others :
  classifier out (trace w) php_text = inr ((syntax, probability) :: others) →
  PrimFloat.leb PROBABILITY_MIN probability = false →
  fst (guess_ext out self php_text PROBABILITY_MIN w) = Return (Some (lit "php"))
  ∧ startswith php_text (lit "<") = true
  ∧ PREFIXES !! 8%nat = Some (lit "<?php", lit "php")
  ∧ PREFIXES !! 9%nat = Some (lit "<", lit "xml").
Proof.
  intros Hc Hp. split; [|by repeat split].
  unfold guess_ext. rewrite run_bind. unfold ask. rewrite Hc.
  rewrite run_bind. simpl. rewrite Hp. reflexivity.
Qed.

Lemma guess_ext_php_before_xml_witness :
  fst (guess_ext calm demo_bot php_text PROBABILITY_MIN fresh)
  = Return (Some (lit "php")).
Proof.
  apply (guess_ext_php_before_xml calm demo_bot fresh (lit "JSON")
           0x1.999999999999ap-5%float []); reflexivity.
Defined.

Lemma code_specified_syntax_pre self message :
  code_specified_syntax self message
  = match pre_entities message with
    | [] => None
    | first :: _ =>
        match ent_language first with
        | Some (c :: lang) => silicon_syntaxes self !! (c :: lang)
        | _ => None
        end
    end.
Proof.
  unfold code_specified_syntax, pre_entities.
  destruct (entities message) as [[|e ents]|]; reflexivity.
Qed.

Lemma guess_ext_run out self code probability_min w syntax probability others :
  classifier out (trace w) code = inr ((syntax, probability) :: others) →
  guess_ext out self code probability_min w
  = let w' := emit (LogMsg "guessed syntax") (emit (Probabilities code) w) in
    if PrimFloat.leb probability_min probability
    then (Return (guesslang_syntaxes self !! syntax), w')
    else simple_guess PREFIXES code w'.
Proof.
  intros Hc. unfold guess_ext. rewrite run_bind. unfold ask. rewrite Hc.
  rewrite run_bind. cbv zeta. unfold note.
  by destruct (PrimFloat.leb probability_min probability).
Qed.

Lemma guess_ext_Raise out self code probability_min w e :
  classifier out (trace w) code = inl e →
  guess_ext out self code probability_min w
  = (Raise e, emit (Probabilities code) w).
Proof.
  intros Hc. unfold guess_ext. rewrite run_bind. unfold ask. by rewrite Hc.
Qed.

(** An accepted explicit tag settles the syntax with one log line. *)
Lemma resolve_explicit out self message text_content w :
  truthy (code_specified_syntax self message) = true →
  resolve out self message text_content w
  = (Return (code_specified_syntax self message),
     emit (LogMsg "receiving code") w).
Proof.
  intros Ht. unfold resolve. cbv zeta. rewrite run_bind. unfold note.
  rewrite Ht. unfold negb. cbv iota. rewrite run_bind, run_ret.
  by rewrite Ht.
Qed.

(** Without one, the guess decides, and the chat default after it. *)
Lemma resolve_guess out self message text_content w :
  truthy (code_specified_syntax self message) = false →
  resolve out self message text_content w
  = match guess_ext out self text_content PROBABILITY_MIN
            (emit (LogMsg "receiving code") w) with
    | (Return ext, w') =>
        if truthy ext then (Return ext, w')
        else (Return match group_syntaxes w' !! chat_id (chat message) with
                     | Some chat_default => Some chat_default
                     | None => ext
                     end, w')
    | (Raise e, w') => (Raise e, w')
    end.
Proof.
  intros Ht. unfold resolve. cbv zeta. rewrite run_bind. unfold note.
  rewrite Ht. unfold negb. cbv iota. rewrite run_bind.
  destruct (guess_ext _ _ _ _ _) as [[ext|e] w']; [|done].
  destruct (truthy ext); unfold negb; cbv iota; [done|].
  unfold try_except. rewrite run_bind. unfold group_syntax_of.
  by destruct (group_syntaxes w' !! chat_id (chat message)).
Qed.

Lemma classifier_calls_emit c w :
  classifier_calls (trace (emit c w))
  = classifier_calls (trace w) ++ (if is_Probabilities c then [c] else []).
Proof.
  unfold classifier_calls. simpl. rewrite List.filter_app. simpl.
  by destruct (is_Probabilities c).
Qed.

(** C2, as stated, fails: only the first pre entity is asked for its
    language. Here the second block is tagged [python3], which the table
    maps to [py]; the tag is not read, the classifier is called, and the
    syntax stays unsettled. *)
Lemma later_block_tag_is_not_read :
  snippet_text two_blocks = Some two_blocks_text
  ∧ (∃ e, e ∈ pre_entities two_blocks
          ∧ ent_language e = Some (lit "python3")
          ∧ silicon_syntaxes demo_bot !! lit "python3" = Some (lit "py"))
  ∧ code_specified_syntax demo_bot two_blocks = None
  ∧ fst (resolve calm demo_bot two_blocks two_blocks_text fresh) = Return None
  ∧ classifier_calls
      (trace (snd (resolve calm demo_bot two_blocks two_blocks_text fresh)))
    = [Probabilities two_blocks_text].
Proof.
  split; [reflexivity|]. split.
  - exists tagged_block. split; [|split; reflexivity].
    apply list_elem_of_In. right. left. reflexivity.
  - vm_compute. by repeat split.
Qed.

(** C2, amended: when the first pre entity of the message carries a
    language, the table maps that language to a syntax, and neither is
    empty, the syntax is settled as the mapped one and the classifier is
    not called. *)
Theorem first_block_tag_settles_syntax out self message text_content w
    first others lang ext :
  pre_entities message = first :: others →
  ent_language first = Some lang → lang ≠ [] →
  silicon_syntaxes self !! lang = Some ext → ext ≠ [] →
  let run := resolve out self message text_content w in
  run = (Return (Some ext), emit (LogMsg "receiving code") w)
  ∧ classifier_calls (trace (snd run)) = classifier_calls (trace w).
Proof.
  intros Hpre Hlang Hne Hmap Hext run.
  assert (Hcss : code_specified_syntax self message = Some ext).
  { rewrite code_specified_syntax_pre, Hpre, Hlang.
    destruct lang; [done|]. done. }
  assert (Hrun : run = (Return (Some ext), emit (LogMsg "receiving code") w)).
  { subst run. rewrite resolve_explicit; rewrite Hcss; [done|].
    by destruct ext. }
  split; [done|]. rewrite Hrun. simpl snd.
  rewrite classifier_calls_emit. simpl. by rewrite app_nil_r.
Qed.

Lemma first_block_tag_settles_syntax_witness :
  resolve calm demo_bot group_snippet (text group_snippet) fresh
  = (Return (Some (lit "py")), emit (LogMsg "receiving code") fresh).
Proof.
  refine (proj1 (first_block_tag_settles_syntax calm demo_bot group_snippet
                   (text group_snippet) fresh python_block [] (lit "python3")
                   (lit "py") eq_refl eq_refl _ eq_refl _)); discriminate.
Defined.

(** What [resolve] returns once the classifier has answered below the
    threshold: the prefix table's answer, else the chat default. *)
Lemma resolve_low_confidence out self message text_content w
    syntax probability others :
  truthy (code_specified_syntax self message) = false →
  classifier_answer out w text_content = inr ((syntax, probability) :: others) →
  PrimFloat.leb PROBABILITY_MIN probability = false →
  fst (resolve out self message text_content w)
  = Return match first_prefix PREFIXES text_content with
           | Some ext => Some ext
           | None => group_syntaxes w !! chat_id (chat message)
           end.
Proof.
  intros Hcss Hc Hp. rewrite resolve_guess by done.
  rewrite (guess_ext_run _ _ _ _ _ _ _ _ Hc). cbv zeta. rewrite Hp.
  rewrite simple_guess_run.
  destruct (first_prefix PREFIXES text_content) as [ext|] eqn:Hfirst.
  - by rewrite (first_prefix_PREFIXES_truthy _ _ Hfirst).
  - simpl. by destruct (group_syntaxes w !! chat_id (chat message)).
Qed.

(** An exception of the classifier leaves [resolve]. *)
Lemma resolve_classifier_raises out self message text_content w e :
  truthy (code_specified_syntax self message) = false →
  classifier_answer out w text_content = inl e →
  fst (resolve out self message text_content w) = Raise e.
Proof.
  intros Hcss Hc. rewrite resolve_guess by done.
  by rewrite (guess_ext_Raise _ _ _ _ _ _ Hc).
Qed.

(** A label the table lacks, at or above the threshold, leaves only the
    chat default. *)
Lemma resolve_unmapped_label out self message text_content w
    syntax probability others :
  truthy (code_specified_syntax self message) = false →
  classifier_answer out w text_content = inr ((syntax, probability) :: others) →
  PrimFloat.leb PROBABILITY_MIN probability = true →
  guesslang_syntaxes self !! syntax = None →
  fst (resolve out self message text_content w)
  = Return (group_syntaxes w !! chat_id (chat message)).
Proof.
  intros Hcss Hc Hp Hmap. rewrite resolve_guess by done.
  rewrite (guess_ext_run _ _ _ _ _ _ _ _ Hc). cbv zeta.
  rewrite Hp, Hmap. simpl.
  by destruct (group_syntaxes w !! chat_id (chat message)).
Qed.

(** C3: for a snippet without an accepted explicit tag, a top result at
    or above the threshold whose label the table maps to a syntax settles
    the syntax as the mapped one. When the confidence is not at or above
    the threshold, the classifier's answer is discarded: the syntax is the
    one of the first matching literal prefix, else the chat default, else
    none, and it is the same whatever label the classifier gave. *)
Theorem classifier_threshold out self message text_content w
    syntax probability others :
  truthy (code_specified_syntax self message) = false →
  classifier_answer out w text_content = inr ((syntax, probability) :: others) →
  (∀ ext, PrimFloat.leb PROBABILITY_MIN probability = true →
          guesslang_syntaxes self !! syntax = Some ext → ext ≠ [] →
          fst (resolve out self message text_content w) = Return (Some ext))
  ∧ (PrimFloat.leb PROBABILITY_MIN probability = false →
     fst (resolve out self message text_content w)
     = Return match first_prefix PREFIXES text_content with
              | Some ext => Some ext
              | None => group_syntaxes w !! chat_id (chat message)
              end
     ∧ ∀ out' syntax' probability' others',
         classifier_answer out' w text_content
         = inr ((syntax', probability') :: others') →
         PrimFloat.leb PROBABILITY_MIN probability' = false →
         fst (resolve out' self message text_content w)
         = fst (resolve out self message text_content w)).
Proof.
  intros Hcss Hc. split.
  - intros ext Hp Hmap Hext. rewrite resolve_guess by done.
    rewrite (guess_ext_run _ _ _ _ _ _ _ _ Hc). cbv zeta.
    rewrite Hp, Hmap. by destruct ext.
  - intros Hp. split; [by eapply resolve_low_confidence|].
    intros out' syntax' probability' others' Hc' Hp'.
    rewrite (resolve_low_confidence _ _ _ _ _ _ _ _ Hcss Hc Hp).
    by rewrite (resolve_low_confidence _ _ _ _ _ _ _ _ Hcss Hc' Hp').
Qed.

Lemma classifier_threshold_witness :
  fst (resolve sure_of_json demo_bot private_snippet (text private_snippet) fresh)
  = Return (Some (lit "json"))
  ∧ fst (resolve calm demo_bot private_snippet (text private_snippet) fresh)
    = Return (Some (lit "json"))
  ∧ fst (resolve unsure_of_cobol demo_bot private_snippet
           (text private_snippet) fresh)
    = fst (resolve calm demo_bot private_snippet (text private_snippet) fresh).
Proof.
  split; [|split].
  - refine (proj1 (classifier_threshold sure_of_json demo_bot private_snippet
                     (text private_snippet) fresh (lit "JSON")
                     0x1.ccccccccccccdp-1%float [] eq_refl eq_refl)
              (lit "json") eq_refl eq_refl _).
    discriminate.
  - exact (proj1 (proj2 (classifier_threshold calm demo_bot private_snippet
                           (text private_snippet) fresh (lit "JSON")
                           0x1.999999999999ap-5%float [] eq_refl eq_refl)
                    eq_refl)).
  - exact (proj2 (proj2 (classifier_threshold calm demo_bot private_snippet
                           (text private_snippet) fresh (lit "JSON")
                           0x1.999999999999ap-5%float [] eq_refl eq_refl)
                    eq_refl)
             unsure_of_cobol (lit "COBOL") 0x1.999999999999ap-5%float []
             eq_refl eq_refl).
Defined.

(** C4, as stated, fails for two of its three cases. A label that the
    table lacks, at or above the threshold, ends [guess_ext] with no
    result and without a look at the prefixes: the text starts with a
    brace and still no syntax is settled. A classifier that raises takes
    the handler with it: the exception leaves [intake_snippet] and no
    reply is sent. *)
Lemma prefix_stage_is_skipped :
  startswith (text private_snippet) (lit "{") = true
  ∧ fst (resolve sure_of_cobol demo_bot private_snippet (text private_snippet)
           fresh) = Return None
  ∧ fst (resolve classifier_down demo_bot private_snippet
           (text private_snippet) fresh)
    = Raise (Exception "classifier unavailable")
  ∧ fst (intake_snippet classifier_down demo_bot private_snippet fresh)
    = Raise (Exception "classifier unavailable")
  ∧ List.filter is_ReplyTo
      (trace (snd (intake_snippet classifier_down demo_bot private_snippet
                     fresh))) = [].
Proof. vm_compute. by repeat split. Qed.

(** C4, amended: when the classifier's top result is below the threshold,
    the prefix table is consulted, and a text that starts with one of its
    prefixes gets the syntax of the first entry, in the order of the
    table, whose prefix it starts with. *)
Theorem low_confidence_reaches_prefixes out self message text_content w
    syntax probability others start ext :
  truthy (code_specified_syntax self message) = false →
  classifier_answer out w text_content = inr ((syntax, probability) :: others) →
  PrimFloat.leb PROBABILITY_MIN probability = false →
  (start, ext) ∈ PREFIXES → startswith text_content start = true →
  ∃ i start' ext',
    PREFIXES !! i = Some (start', ext')
    ∧ startswith text_content start' = true
    ∧ (∀ j start'' ext'', (j < i)%nat → PREFIXES !! j = Some (start'', ext'') →
                           startswith text_content start'' = false)
    ∧ fst (resolve out self message text_content w) = Return (Some ext').
Proof.
  intros Hcss Hc Hp Hin Hstart.
  destruct (first_prefix_is_Some _ _ _ _ Hin Hstart) as [ext' Hfirst].
  destruct (proj1 (first_prefix_Some _ _ _) Hfirst) as (i & start' & Hi & Hs & Hmin).
  exists i, start', ext'. repeat split; [done..|].
  rewrite (resolve_low_confidence _ _ _ _ _ _ _ _ Hcss Hc Hp).
  by rewrite Hfirst.
Qed.

Lemma low_confidence_reaches_prefixes_witness :
  ∃ i start' ext',
    PREFIXES !! i = Some (start', ext')
    ∧ startswith (text private_snippet) start' = true
    ∧ (∀ j start'' ext'', (j < i)%nat → PREFIXES !! j = Some (start'', ext'') →
                           startswith (text private_snippet) start'' = false)
    ∧ fst (resolve calm demo_bot private_snippet (text private_snippet) fresh)
      = Return (Some ext').
Proof.
  refine (low_confidence_reaches_prefixes calm demo_bot private_snippet
            (text private_snippet) fresh (lit "JSON")
            0x1.999999999999ap-5%float [] (lit "{") (lit "json")
            eq_refl eq_refl eq_refl _ eq_refl).
  apply list_elem_of_In. left. reflexivity.
Defined.

(** ** What a handler asks of the outside: reasoning on the trace *)

Lemma calls_emit P c w :
  calls P (emit c w) = calls P w ++ (if P c then [c] else []).
Proof.
  unfold calls. simpl. rewrite List.filter_app. simpl. by destruct (P c).
Qed.

Lemma calls_emit_other P c w : P c = false → calls P (emit c w) = calls P w.
Proof. intros H. by rewrite calls_emit, H, app_nil_r. Qed.

Lemma quiet_Return {A} P (m : M A) w a w' :
  quiet P m → m w = (Return a, w') → calls P w' = calls P w.
Proof. intros Hq Hm. specialize (Hq w). by rewrite Hm in Hq. Qed.

Lemma quiet_ret {A} P (a : A) : quiet P (mret a : M A).
Proof. by intros w. Qed.

Lemma quiet_throw {A} P (e : exn) : quiet P (mthrow e : M A).
Proof. by intros w. Qed.

Lemma quiet_bind {A B} P (m : M A) (f : A → M B) :
  quiet P m → (∀ a, quiet P (f a)) → quiet P (m ≫= f).
Proof.
  intros Hm Hf w. rewrite run_bind. specialize (Hm w).
  destruct (m w) as [[a|e] w']; simpl in *; [|done].
  by rewrite Hf.
Qed.

Lemma quiet_try_except {A} P (body : M A) caught handler :
  quiet P body → (∀ e, quiet P (handler e)) →
  quiet P (try_except body caught handler).
Proof.
  intros Hb Hh w. unfold try_except. specialize (Hb w).
  destruct (body w) as [[a|e] w']; simpl in *; [done|].
  destruct (caught e); simpl; [|done]. by rewrite Hh.
Qed.

Lemma quiet_note P c : P c = false → quiet P (note c).
Proof. intros H w. by apply calls_emit_other. Qed.

Lemma quiet_ask {A} P c (answer : list call → exn + A) :
  P c = false → quiet P (ask c answer).
Proof.
  intros H w. unfold ask. destruct (answer (trace w)); by apply calls_emit_other.
Qed.

Lemma quiet_tell P c answer : P c = false → quiet P (tell c answer).
Proof.
  intros H w. unfold tell. destruct (answer (trace w)); by apply calls_emit_other.
Qed.

Lemma quiet_if {A} P (b : bool) (m1 m2 : M A) :
  quiet P m1 → quiet P m2 → quiet P (if b then m1 else m2).
Proof. by destruct b. Qed.

(** [retry] only adds sleeps and log lines to what the handler asks. *)
Lemma quiet_retry_loop {A} P has_logger seconds (original : M A) :
  P (Sleep seconds) = false → P (LogMsg "called retry-able") = false →
  quiet P original →
  ∀ attempts attempt last_error,
    quiet P (retry_loop has_logger seconds original attempts attempt last_error).
Proof.
  intros Hsleep Hlog Ho attempts.
  induction attempts as [|n IH]; intros attempt last_error; simpl.
  - apply quiet_throw.
  - apply quiet_try_except; [done|]. intros e.
    apply quiet_bind; [by apply quiet_note|]. intros _.
    apply quiet_bind; [|intros _; apply IH].
    apply quiet_if; [by apply quiet_note|apply quiet_ret].
Qed.

Lemma quiet_retry {A} P has_logger (original : M A) :
  P (Sleep 3) = false → P (LogMsg "called retry-able") = false →
  quiet P original → quiet P (retry has_logger original).
Proof. intros. by apply quiet_retry_loop. Qed.

(** Quietness of a handler written with the operations of the monad,
    piece by piece. *)
Ltac quiet_steps :=
  repeat first
    [ apply quiet_ret
    | apply quiet_throw
    | apply quiet_note; reflexivity
    | apply quiet_ask; reflexivity
    | apply quiet_tell; reflexivity
    | apply quiet_retry; [reflexivity..|]
    | apply quiet_bind; [|intros ?]
    | apply quiet_try_except; [|intros ?]
    | apply quiet_if ].

(** Sending an image runs no renderer. *)
Lemma quiet_send_image out chat_id png_path reply_msg_id log :
  quiet is_Silicon (send_image out chat_id png_path reply_msg_id log).
Proof.
  unfold send_image, send_image_body, gateway, gateway_returning. quiet_steps.
Qed.

(** ** Rendering the themes *)

Lemma set_snippet_filetype_body_settled out self cb_query snippet ext s e u w :
  settled cb_query snippet ext = Some (s, e) →
  from_user s = Some u →
  set_snippet_filetype_body out self cb_query snippet ext w
  = ((match cb_query with
      | Some q =>
          gateway out
            (EditMessageReplyMarkup (chat_id (chat (cq_message q)))
               (message_id (cq_message q))
               (minikb (lit "syntax") (lang_syntax_picker self)))
      | None => mret tt
      end) ;;
     note (LogMsg "colorizing code") ;;
     for_each (themes_of s)
       (send_theme out self s (rendered_text s) e (is_private (chat s))) ;;
     match cb_query with
     | Some q => gateway out (AnswerCallbackQuery (cq_id q))
     | None => mret tt
     end) w.
Proof.
  intros Hset Hu. unfold set_snippet_filetype_body, settled in *.
  destruct cb_query as [q|].
  - destruct (cq_data q) eqn:Hdata; try done.
    destruct (reply_to_message (cq_message q)) as [s'|] eqn:Hreply; [|done].
    injection Hset as -> ->. run.
    destruct (gateway out _ w) as [[[]|e'] w1]; [|done].
    rewrite Hu. reflexivity.
  - destruct snippet as [s'|]; [|done]. destruct ext as [[|c e']|]; try done.
    injection Hset as -> <-. run. rewrite Hu. reflexivity.
Qed.

(** One turn of the loop runs the renderer once, on the theme of the
    turn, whatever comes of it. *)
Lemma send_theme_renders out self snippet text_content ext attach theme w :
  calls is_Silicon (snd (send_theme out self snippet text_content ext attach theme w))
  = calls is_Silicon w ++ [Silicon text_content ext theme].
Proof.
  unfold send_theme. rewrite run_bind. unfold mk_png, ask.
  destruct (renderer out (trace w) text_content ext theme) as [e|png];
    [cbn [snd]; by rewrite calls_emit|].
  match goal with
  | |- calls _ (snd (?rest ?w1)) = _ =>
      assert (Hq : quiet is_Silicon rest); [|rewrite (Hq w1)]
  end.
  { apply quiet_bind; [apply quiet_send_image|]. intros photo_msg.
    unfold gateway. quiet_steps.
    destruct (last (photo photo_msg)); quiet_steps. }
  by rewrite calls_emit.
Qed.

(** A loop over the themes that returns has run the renderer once for
    each theme, in order. *)
Lemma for_each_theme_renders out self snippet text_content ext attach themes :
  ∀ w w',
    for_each themes (send_theme out self snippet text_content ext attach) w
    = (Return tt, w') →
    calls is_Silicon w'
    = calls is_Silicon w ++ (Silicon text_content ext <$> themes).
Proof.
  induction themes as [|theme themes IH]; intros w w'; simpl.
  - intros [= <-]. by rewrite app_nil_r.
  - rewrite run_bind.
    pose proof (send_theme_renders out self snippet text_content ext attach
                  theme w) as Hone.
    destruct (send_theme _ _ _ _ _ _ _ w) as [[[]|e] w1]; [|done].
    intros Hrest%IH. simpl in Hone. rewrite Hrest, Hone.
    by rewrite <- app_assoc.
Qed.

Lemma themes_of_chat snippet :
  themes_of snippet = if is_private (chat snippet) then [DARK; LIGHT] else [DARK].
Proof. unfold themes_of. by destruct (is_private (chat snippet)). Qed.

(** Whenever one attempt of [set_snippet_filetype] returns, it has run
    the renderer once for each theme of the snippet. *)
Lemma set_snippet_filetype_body_renders out self cb_query snippet ext s e u w w' :
  settled cb_query snippet ext = Some (s, e) →
  from_user s = Some u →
  set_snippet_filetype_body out self cb_query snippet ext w = (Return tt, w') →
  calls is_Silicon w'
  = calls is_Silicon w ++ (Silicon (rendered_text s) e <$> themes_of s).
Proof.
  intros Hset Hu.
  rewrite (set_snippet_filetype_body_settled _ _ _ _ _ _ _ _ _ Hset Hu).
  intros ([] & w1 & Hfirst & Hrun)%bind_Return.
  apply bind_Return in Hrun as ([] & w2 & [= <-] & Hrun).
  apply bind_Return in Hrun as ([] & w3 & Hloop & Hlast).
  apply for_each_theme_renders in Hloop.
  rewrite calls_emit_other in Hloop by done.
  assert (H1 : calls is_Silicon w1 = calls is_Silicon w).
  { destruct cb_query as [q|]; [|by injection Hfirst as <-].
    eapply (quiet_Return is_Silicon); [|exact Hfirst]. by apply quiet_tell. }
  assert (H3 : calls is_Silicon w' = calls is_Silicon w3).
  { destruct cb_query as [q|]; [|by injection Hlast as <-].
    eapply (quiet_Return is_Silicon); [|exact Hlast]. by apply quiet_tell. }
  by rewrite H3, Hloop, H1.
Qed.

(** In a benign outside an image is sent at the first attempt, and what
    comes back is well formed. *)
Lemma send_image_benign out chat_id png_path reply_msg_id log w :
  benign out →
  ∃ m w', send_image out chat_id png_path reply_msg_id log w = (Return m, w')
          ∧ (content_type m = lit "photo" → photo m ≠ []).
Proof.
  intros (_ & Hsize & Hmsg & Hdone).
  assert (∃ m w', send_image_body out chat_id png_path reply_msg_id log w
                  = (Return m, w')
                  ∧ (content_type m = lit "photo" → photo m ≠ []))
    as (m & w' & Hbody & Hm).
  { unfold send_image_body. rewrite run_bind. unfold gateway, tell.
    rewrite Hdone. rewrite run_bind. unfold ask at 1.
    destruct (Hsize (trace (emit (SendChatAction chat_id (lit "upload_photo")) w))
                png_path) as [size ->].
    destruct (size <? 300000).
    - unfold try_except, gateway_returning, ask.
      match goal with
      | |- context [gateway_message out ?tr ?c] =>
          destruct (Hmsg tr c) as (m & -> & Hm)
      end.
      by eexists _, _.
    - unfold gateway_returning, ask.
      match goal with
      | |- context [gateway_message out ?tr ?c] =>
          destruct (Hmsg tr c) as (m & -> & Hm)
      end.
      by eexists _, _. }
  exists m, w'. split; [|done]. by apply retry_Return.
Qed.

Lemma send_theme_benign out self snippet text_content ext attach theme w :
  benign out →
  ∃ w', send_theme out self snippet text_content ext attach theme w
        = (Return tt, w').
Proof.
  intros Hout. pose proof Hout as (Hpng & _ & _ & Hdone).
  unfold send_theme. rewrite run_bind. unfold mk_png, ask.
  destruct (Hpng (trace w) text_content ext theme) as [png ->].
  rewrite run_bind.
  destruct (send_image_benign out (chat_id (chat snippet)) png
              (message_id snippet) false
              (emit (Silicon text_content ext theme) w) Hout)
    as (m & w1 & -> & Hm).
  rewrite run_bind.
  assert (∃ kb, ((if attach && bool_decide (content_type m = lit "photo")
                  then match last (photo m) with
                       | Some file_id =>
                           mret [SwitchInlineButton (lang_send_to_chat self)
                                   (lit "img " ++ file_id)]
                       | None => mthrow IndexError
                       end
                  else mret []) : M (list button)) w1 = (Return kb, w1))
    as [kb ->].
  { destruct attach; simpl; [|by eexists].
    case_bool_decide as Hphoto; [|by eexists].
    specialize (Hm Hphoto). destruct (photo m) as [|p ps _] using rev_ind;
      [done|].
    rewrite last_snoc. by eexists. }
  unfold gateway, tell. rewrite Hdone. by eexists.
Qed.

Lemma for_each_theme_benign out self snippet text_content ext attach themes :
  benign out →
  ∀ w, ∃ w',
    for_each themes (send_theme out self snippet text_content ext attach) w
    = (Return tt, w').
Proof.
  intros Hout. induction themes as [|theme themes IH]; intros w; simpl.
  - by eexists.
  - rewrite run_bind.
    destruct (send_theme_benign out self snippet text_content ext attach theme
                w Hout) as [w1 ->].
    apply IH.
Qed.

(** C10, as stated, fails: [retry] starts the handler over after a
    failure of the connection, and the new attempt renders again the
    themes that were rendered before. In a private chat where the upload
    of the light image finds no connection, the handler returns after
    four renders and three images in the chat; in a group where the upload
    of the dark image finds none, after two renders. *)
Lemma retried_render_repeats_themes :
  settled None (Some private_snippet) (Some (lit "json"))
  = Some (private_snippet, lit "json")
  ∧ is_private (chat private_snippet) = true
  ∧ fst (set_snippet_filetype (uploads_fail_from 1) demo_bot None
           (Some private_snippet) (Some (lit "json")) fresh) = Return tt
  ∧ calls is_Silicon
      (snd (set_snippet_filetype (uploads_fail_from 1) demo_bot None
              (Some private_snippet) (Some (lit "json")) fresh))
    = [Silicon (Some (text private_snippet)) (lit "json") DARK;
       Silicon (Some (text private_snippet)) (lit "json") LIGHT;
       Silicon (Some (text private_snippet)) (lit "json") DARK;
       Silicon (Some (text private_snippet)) (lit "json") LIGHT]
  ∧ length (delivered (uploads_fail_from 1)
              (snd (set_snippet_filetype (uploads_fail_from 1) demo_bot None
                      (Some private_snippet) (Some (lit "json")) fresh)))
    = 3%nat
  ∧ settled None (Some group_snippet) (Some (lit "py"))
    = Some (group_snippet, lit "py")
  ∧ is_private (chat group_snippet) = false
  ∧ fst (set_snippet_filetype (uploads_fail_from 0) demo_bot None
           (Some group_snippet) (Some (lit "py")) fresh) = Return tt
  ∧ calls is_Silicon
      (snd (set_snippet_filetype (uploads_fail_from 0) demo_bot None
              (Some group_snippet) (Some (lit "py")) fresh))
    = [Silicon (code_subcontent group_snippet) (lit "py") DARK;
       Silicon (code_subcontent group_snippet) (lit "py") DARK].
Proof. vm_compute. by repeat split. Qed.

(** C10, amended: for a snippet whose syntax is settled, an attempt of
    [set_snippet_filetype] that returns has rendered the snippet once in
    the dark theme when the chat is not private, and once in the dark
    theme and then once in the light theme when the chat is private, in
    any outside; when it is the first attempt, the handler returns with
    it. In an outside where no call fails the handler returns at its
    first attempt, with exactly these renders. *)
Theorem themes_by_chat_type out self cb_query snippet ext s e u w :
  settled cb_query snippet ext = Some (s, e) →
  from_user s = Some u →
  let rendered :=
    if is_private (chat s)
    then [Silicon (Some (text s)) e DARK; Silicon (Some (text s)) e LIGHT]
    else [Silicon (code_subcontent s) e DARK] in
  (benign out →
   ∃ w', set_snippet_filetype out self cb_query snippet ext w = (Return tt, w')
         ∧ calls is_Silicon w' = calls is_Silicon w ++ rendered)
  ∧ (∀ w', set_snippet_filetype_body out self cb_query snippet ext w
           = (Return tt, w') →
           calls is_Silicon w' = calls is_Silicon w ++ rendered
           ∧ set_snippet_filetype out self cb_query snippet ext w
             = (Return tt, w')).
Proof.
  intros Hset Hu rendered.
  assert (Hrendered : Silicon (rendered_text s) e <$> themes_of s = rendered).
  { subst rendered. rewrite themes_of_chat. unfold rendered_text.
    by destruct (is_private (chat s)). }
  assert (Hbody : ∀ w', set_snippet_filetype_body out self cb_query snippet ext w
                        = (Return tt, w') →
                        calls is_Silicon w' = calls is_Silicon w ++ rendered).
  { intros w' Hrun. rewrite <- Hrendered.
    by eapply set_snippet_filetype_body_renders. }
  split; [|intros w' Hrun; split; [by apply Hbody|by apply retry_Return]].
  intros Hout. pose proof Hout as (_ & _ & _ & Hdone).
  assert (∃ w', set_snippet_filetype_body out self cb_query snippet ext w
                = (Return tt, w')) as [w' Hrun].
  { rewrite (set_snippet_filetype_body_settled _ _ _ _ _ _ _ _ _ Hset Hu).
    rewrite run_bind.
    assert (∃ w1, (match cb_query with
                   | Some q =>
                       gateway out
                         (EditMessageReplyMarkup (chat_id (chat (cq_message q)))
                            (message_id (cq_message q))
                            (minikb (lit "syntax") (lang_syntax_picker self)))
                   | None => mret tt
                   end) w = (Return tt, w1)) as [w1 ->].
    { destruct cb_query; [|by eexists].
      unfold gateway, tell. rewrite Hdone. by eexists. }
    rewrite run_bind. unfold note at 1. rewrite run_bind.
    destruct (for_each_theme_benign out self s (rendered_text s) e
                (is_private (chat s)) (themes_of s) Hout
                (emit (LogMsg "colorizing code") w1)) as [w2 ->].
    destruct cb_query; [|by eexists].
    unfold gateway, tell. rewrite Hdone. by eexists. }
  exists w'. split; [by apply retry_Return|by apply Hbody].
Qed.

Lemma calm_benign : benign calm.
Proof.
  repeat split; intros; try by eexists.
Qed.

Lemma themes_by_chat_type_witness :
  ∃ w', set_snippet_filetype calm demo_bot None (Some private_snippet)
          (Some (lit "json")) fresh = (Return tt, w')
        ∧ calls is_Silicon w'
          = [Silicon (Some (text private_snippet)) (lit "json") DARK;
             Silicon (Some (text private_snippet)) (lit "json") LIGHT].
Proof.
  exact (proj1 (themes_by_chat_type calm demo_bot None (Some private_snippet)
                  (Some (lit "json")) private_snippet (lit "json") alice fresh
                  eq_refl eq_refl) calm_benign).
Defined.

(** ** A failing theme *)

(** C8, as stated, fails: nothing around a turn of the loop catches an
    exception. When the render of the dark theme fails, the exception
    leaves [set_snippet_filetype]; the light theme, which would have been
    rendered, is never tried, and nothing is logged about the failure.
    The same holds when the upload of the dark image is refused. *)
Lemma dark_failure_stops_light :
  themes_of private_snippet = [DARK; LIGHT]
  ∧ renderer dark_fails [] (Some (text private_snippet)) (lit "json") LIGHT
    = inr (lit "/tmp/ccb_png/a/b.png")
  ∧ set_snippet_filetype dark_fails demo_bot None (Some private_snippet)
      (Some (lit "json")) fresh
    = (Raise ProcessExecutionError,
       emit (Silicon (Some (text private_snippet)) (lit "json") DARK)
         (emit (LogMsg "colorizing code") fresh))
  ∧ fst (set_snippet_filetype upload_refused demo_bot None (Some private_snippet)
           (Some (lit "json")) fresh) = Raise ApiException
  ∧ calls is_light_render
      (snd (set_snippet_filetype upload_refused demo_bot None
              (Some private_snippet) (Some (lit "json")) fresh)) = [].
Proof. vm_compute. by repeat split. Qed.

(** A handler that raises at every attempt makes [retry] raise. *)
Lemma retry_loop_raises {A} has_logger seconds (original : M A) :
  (∀ w, ∃ e w', original w = (Raise e, w')) →
  ∀ attempts attempt last_error w,
    ∃ e w', retry_loop has_logger seconds original attempts attempt last_error w
            = (Raise e, w').
Proof.
  intros Ho attempts.
  induction attempts as [|n IH]; intros attempt last_error w; simpl.
  - by eexists _, _.
  - unfold try_except. destruct (Ho w) as (e & w1 & ->).
    destruct (is_ConnectionError e); [|by eexists _, _].
    run. destruct (has_logger && _); apply IH.
Qed.

(** And when it is always the same exception, that one is raised. *)
Lemma retry_loop_raises_same {A} has_logger seconds (original : M A) err :
  (∀ w, ∃ w', original w = (Raise err, w')) →
  ∀ attempts attempt w,
    ∃ w', retry_loop has_logger seconds original attempts attempt err w
          = (Raise err, w').
Proof.
  intros Ho attempts.
  induction attempts as [|n IH]; intros attempt w; simpl.
  - by eexists.
  - unfold try_except. destruct (Ho w) as (w1 & ->).
    destruct (is_ConnectionError err); [|by eexists].
    run. destruct (has_logger && _); apply IH.
Qed.

Lemma retry_raises_same {A} has_logger (original : M A) err :
  (∀ w, ∃ w', original w = (Raise err, w')) →
  ∀ w, ∃ w', retry has_logger original w = (Raise err, w').
Proof.
  intros Ho w. unfold retry. rewrite retry_loop_S. unfold try_except.
  destruct (Ho w) as (w1 & ->).
  destruct (is_ConnectionError err); [|by eexists].
  run. destruct (has_logger && _);
    apply (retry_loop_raises_same has_logger 3 original err Ho).
Qed.

(** With a renderer that fails on the dark theme, an attempt of
    [set_snippet_filetype] raises before the light theme is tried. *)
Lemma set_snippet_filetype_body_dark_fails out self cb_query snippet ext s e u err :
  settled cb_query snippet ext = Some (s, e) →
  from_user s = Some u →
  (∀ tr, renderer out tr (rendered_text s) e DARK = inl err) →
  ∀ w, ∃ err' w',
    set_snippet_filetype_body out self cb_query snippet ext w = (Raise err', w')
    ∧ calls is_light_render w' = calls is_light_render w
    ∧ (cb_query = None → err' = err).
Proof.
  intros Hset Hu Hdark w.
  rewrite (set_snippet_filetype_body_settled _ _ _ _ _ _ _ _ _ Hset Hu).
  assert (Hloop : ∀ w1 (rest : M unit), ∃ w',
            (note (LogMsg "colorizing code") ;;
             for_each (themes_of s)
               (send_theme out self s (rendered_text s) e (is_private (chat s))) ;;
             rest) w1 = (Raise err, w')
            ∧ calls is_light_render w' = calls is_light_render w1).
  { intros w1 rest. rewrite run_bind. unfold note at 1. rewrite run_bind.
    assert (∃ others, themes_of s = DARK :: others) as [others ->].
    { rewrite themes_of_chat. destruct (is_private (chat s)); by eexists. }
    simpl for_each. rewrite run_bind. unfold send_theme at 1.
    rewrite run_bind. unfold mk_png, ask. rewrite Hdark.
    eexists. split; [done|]. by rewrite !calls_emit_other. }
  destruct cb_query as [q|].
  - rewrite run_bind. unfold gateway at 1, tell.
    destruct (gateway_done out _ _) as [e1|].
    + eexists _, _. split; [done|]. split; [|done].
      by rewrite calls_emit_other.
    + match goal with
      | |- context [(note _ ≫= λ _, for_each _ _ ≫= λ _, ?rest) ?w1] =>
          destruct (Hloop w1 rest) as (w' & -> & Hw')
      end.
      eexists _, _. split; [done|]. split; [|done].
      by rewrite Hw', calls_emit_other.
  - rewrite run_bind, run_ret.
    destruct (Hloop w (mret tt)) as (w' & -> & Hw').
    by eexists _, _.
Qed.

(** C8, amended: the themes are rendered and delivered one after the
    other with nothing to catch a failure in between. When the render of
    the dark theme fails, [set_snippet_filetype] ends with an exception
    (the renderer's own when the handler was called with a snippet and a
    syntax), and the light theme is not tried, neither at once nor by the
    further attempts of [retry]. *)
Theorem dark_render_failure_ends_fan_out out self cb_query snippet ext s e u w err :
  settled cb_query snippet ext = Some (s, e) →
  from_user s = Some u →
  (∀ tr, renderer out tr (rendered_text s) e DARK = inl err) →
  let run := set_snippet_filetype out self cb_query snippet ext w in
  (∃ err', fst run = Raise err')
  ∧ (cb_query = None → fst run = Raise err)
  ∧ calls is_light_render (snd run) = calls is_light_render w.
Proof.
  intros Hset Hu Hdark run. subst run.
  pose proof (set_snippet_filetype_body_dark_fails out self cb_query snippet
                ext s e u err Hset Hu Hdark) as Hbody.
  repeat split.
  - destruct (retry_loop_raises (log_is_bindable self) 3
                (set_snippet_filetype_body out self cb_query snippet ext))
      with (attempts := 6%nat) (attempt := 0%nat)
           (last_error := UnboundLocalError) (w := w) as (err' & w' & Hrun).
    { intros w0. destruct (Hbody w0) as (err' & w' & Hrun & _).
      by exists err', w'. }
    exists err'. unfold set_snippet_filetype, retry. by rewrite Hrun.
  - intros ->.
    destruct (retry_raises_same (log_is_bindable self)
                (set_snippet_filetype_body out self None snippet ext) err)
      with (w := w) as (w' & Hrun).
    { intros w0. destruct (Hbody w0) as (err' & w' & Hrun & _ & Herr).
      rewrite (Herr eq_refl) in Hrun. by exists w'. }
    unfold set_snippet_filetype. by rewrite Hrun.
  - apply quiet_retry; [done..|]. intros w0.
    destruct (Hbody w0) as (err' & w' & Hrun & Hcalls & _).
    by rewrite Hrun.
Qed.

Lemma dark_render_failure_ends_fan_out_witness :
  fst (set_snippet_filetype dark_fails demo_bot None (Some private_snippet)
         (Some (lit "json")) fresh) = Raise ProcessExecutionError
  ∧ calls is_light_render
      (snd (set_snippet_filetype dark_fails demo_bot None (Some private_snippet)
              (Some (lit "json")) fresh)) = [].
Proof.
  pose proof (dark_render_failure_ends_fan_out dark_fails demo_bot None
                (Some private_snippet) (Some (lit "json")) private_snippet
                (lit "json") alice fresh ProcessExecutionError
                eq_refl eq_refl (λ _, eq_refl)) as (_ & Hraise & Hlight).
  split; [exact (Hraise eq_refl)|exact Hlight].
Defined.

(** ** Deleting a reply of the bot *)

(** C9, as stated, fails: the moderation check is made only when the
    reply chain cannot be read. Carol administers the group and asks to
    delete the bot's reply to Alice's snippet; the chain is there, Carol
    is not its author, and nothing is deleted although she would pass the
    moderation check. *)
Lemma admin_cannot_delete_reply_to_other :
  reply_author carol_begone = Some (user_id alice)
  ∧ user_id alice ≠ user_id carol
  ∧ can_moderate carol_begone (lit "administrator") = true
  ∧ begone all_admins demo_bot carol_begone fresh
    = (Return tt, emit (LogMsg "Got deletion request") fresh)
  ∧ calls is_DeleteMessage (snd (begone all_admins demo_bot carol_begone fresh))
    = [].
Proof. vm_compute. by repeat split. Qed.

(** One attempt of [begone] with the reply chain there: the authors are
    compared and nothing is asked of the gateway before the deletion. *)
Lemma begone_body_chain out q author w :
  reply_author q = Some author →
  begone_body out q w
  = if bool_decide (author = user_id (cq_from_user q))
    then gateway out (deletion_of q) (emit (LogMsg "Got deletion request") w)
    else (Return tt, emit (LogMsg "Got deletion request") w).
Proof.
  unfold reply_author, begone_body. rewrite run_bind. unfold try_except.
  destruct (reply_to_message (cq_message q)) as [replied|]; [|done].
  destruct (from_user replied) as [u|]; [|done]. intros [= <-].
  run. by destruct (bool_decide _).
Qed.

(** One attempt without the reply chain, in a private chat. *)
Lemma begone_body_private out q w :
  reply_author q = None →
  is_private (chat (cq_message q)) = true →
  begone_body out q w
  = gateway out (deletion_of q) (emit (LogMsg "Got deletion request") w).
Proof.
  intros Hnone Hprivate. unfold reply_author in Hnone. unfold begone_body.
  rewrite run_bind. unfold try_except.
  destruct (reply_to_message (cq_message q)) as [replied|].
  - destruct (from_user replied); [done|]. run.
    unfold is_from_group_admin_or_creator. rewrite Hprivate. by run.
  - run. unfold is_from_group_admin_or_creator. rewrite Hprivate. by run.
Qed.

(** One attempt without the reply chain, in a chat that is not private:
    the gateway is asked for the requester's status. *)
Lemma begone_body_asks out q status w :
  reply_author q = None →
  is_private (chat (cq_message q)) = false →
  (∀ tr, member_status out tr (chat_id (chat (cq_message q)))
           (user_id (cq_from_user q)) = inr status) →
  begone_body out q w
  = if is_admin_status status
    then gateway out (deletion_of q)
           (emit (LogMsg "Got deletion request") (emit (membership_of q) w))
    else (Return tt,
          emit (LogMsg "Got deletion request") (emit (membership_of q) w)).
Proof.
  intros Hnone Hprivate Hstatus. unfold reply_author in Hnone.
  unfold begone_body, membership_of.
  rewrite run_bind. unfold try_except.
  destruct (reply_to_message (cq_message q)) as [replied|].
  - destruct (from_user replied); [done|]. run.
    unfold is_from_group_admin_or_creator. rewrite Hprivate.
    run. unfold ask. rewrite Hstatus. by destruct (is_admin_status status).
  - run. unfold is_from_group_admin_or_creator. rewrite Hprivate.
    run. unfold ask. rewrite Hstatus. by destruct (is_admin_status status).
Qed.

(** When each attempt makes the same single call that satisfies [P],
    [retry] has made that call once per attempt, and at least once. *)
Lemma retry_loop_repeats {A} P c has_logger seconds (original : M A) :
  P (Sleep seconds) = false → P (LogMsg "called retry-able") = false →
  (∀ w, calls P (snd (original w)) = calls P w ++ [c]) →
  ∀ attempts attempt last_error w, ∃ n,
    calls P (snd (retry_loop has_logger seconds original attempts attempt
                    last_error w)) = calls P w ++ replicate n c
    ∧ (0 < attempts → 0 < n)%nat.
Proof.
  intros Hsleep Hlog Ho attempts.
  induction attempts as [|k IH]; intros attempt last_error w.
  - exists 0%nat. simpl. rewrite app_nil_r. split; [done|lia].
  - rewrite retry_loop_S. unfold try_except. specialize (Ho w).
    destruct (original w) as [[a|e] w1]; simpl in Ho.
    { exists 1%nat. split; [done|lia]. }
    destruct (is_ConnectionError e); [|exists 1%nat; split; [done|lia]].
    rewrite run_bind. unfold note at 1. rewrite run_bind.
    match goal with
    | |- context [(if ?b then _ else _) ?w2] =>
        assert (∃ w3, (if b then note (LogMsg "called retry-able")
                       else (mret tt : M unit)) w2 = (Return tt, w3)
                      ∧ calls P w3 = calls P w1) as (w3 & -> & H3)
    end.
    { destruct (has_logger && _); eexists; (split; [done|]);
        by rewrite ?calls_emit_other. }
    destruct (IH (S attempt) e w3) as (n & Hn & _).
    exists (S n). split; [|lia].
    rewrite Hn, H3, Ho. simpl. by rewrite <- app_assoc.
Qed.

(** [begone] once its attempts are known: each attempt takes the same
    [decision] after [pre], and asks for the deletion when it is granted. *)
Lemma begone_decided out self q (decision : bool) (pre : World → World) :
  (∀ w, begone_body out q w
        = if decision then gateway out (deletion_of q) (pre w)
          else (Return tt, pre w)) →
  (∀ w, calls is_DeleteMessage (pre w) = calls is_DeleteMessage w) →
  ∀ w,
    (∃ n, calls is_DeleteMessage (snd (begone out self q w))
          = calls is_DeleteMessage w ++ replicate n (deletion_of q)
          ∧ ((0 < n)%nat ↔ decision = true))
    ∧ ((∀ tr, gateway_done out tr (deletion_of q) = None) →
       fst (begone out self q w) = Return tt).
Proof.
  intros Hbody Hpre w. split.
  - destruct decision.
    + destruct (retry_loop_repeats is_DeleteMessage (deletion_of q)
                  (log_is_bindable self) 3 (begone_body out q) eq_refl eq_refl)
        with (attempts := 6%nat) (attempt := 0%nat)
             (last_error := UnboundLocalError) (w := w) as (n & Hn & Hpos).
      { intros w0. rewrite Hbody. unfold gateway, tell.
        destruct (gateway_done out _ _); simpl; by rewrite calls_emit, Hpre. }
      exists n. split; [exact Hn|]. split; [done|]. intros _. apply Hpos. lia.
    + exists 0%nat. split; [|split; [lia|done]].
      unfold begone. rewrite (retry_Return _ _ _ _ _ (Hbody w)). simpl.
      by rewrite Hpre, app_nil_r.
  - intros Hdone.
    assert (∃ w', begone_body out q w = (Return tt, w')) as [w' Hw'].
    { rewrite Hbody. destruct decision; [|by eexists].
      unfold gateway, tell. rewrite Hdone. by eexists. }
    unfold begone. by rewrite (retry_Return _ _ _ _ _ Hw').
Qed.

(** C9, amended. With the reply chain there, whatever the gateway would
    answer, [begone] does not make the moderation check (no membership
    question is asked) and asks for the deletion of the message exactly
    when the requester is the author of the replied-to message. With the
    reply chain absent (no replied-to message, or one without a sender),
    it falls back on the moderation check: the deletion is asked for
    exactly when the chat is private or the requester's status is
    [administrator] or [creator], and outside a private chat the gateway
    is asked for that status. The deletion is asked for once per attempt
    of [retry]; when the gateway accepts it the handler returns, so a
    missing reply chain raises nothing. *)
Theorem deletion_permission out self q w :
  (∀ author,
     reply_author q = Some author →
     calls is_GetChatMember (snd (begone out self q w))
     = calls is_GetChatMember w
     ∧ (∃ n, calls is_DeleteMessage (snd (begone out self q w))
             = calls is_DeleteMessage w ++ replicate n (deletion_of q)
             ∧ ((0 < n)%nat ↔ author = user_id (cq_from_user q)))
     ∧ ((∀ tr, gateway_done out tr (deletion_of q) = None) →
        fst (begone out self q w) = Return tt))
  ∧ (reply_author q = None →
     ∀ status,
       moderation_answers out q status →
       (∃ n, calls is_DeleteMessage (snd (begone out self q w))
             = calls is_DeleteMessage w ++ replicate n (deletion_of q)
             ∧ ((0 < n)%nat ↔
                is_private (chat (cq_message q)) = true
                ∨ is_admin_status status = true))
       ∧ ((∀ tr, gateway_done out tr (deletion_of q) = None) →
          fst (begone out self q w) = Return tt)
       ∧ (is_private (chat (cq_message q)) = false →
          ∃ m, (0 < m)%nat
               ∧ calls is_GetChatMember (snd (begone out self q w))
                 = calls is_GetChatMember w
                   ++ replicate m (membership_of q))).
Proof.
  split.
  - intros author Hchain.
    pose proof (begone_body_chain out q author) as Hbody.
    specialize (λ w, Hbody w Hchain).
    destruct (begone_decided out self q _ _ Hbody) with (w := w)
      as [(n & Hn & Hpos) Hreturns].
    { intros w0. cbv beta. by rewrite calls_emit_other. }
    split; [|split; [|done]].
    + apply quiet_retry; [done..|]. intros w0. rewrite Hbody.
      destruct (bool_decide _); [|simpl; by rewrite calls_emit_other].
      unfold gateway, tell.
      destruct (gateway_done out _ _); simpl; by rewrite !calls_emit_other.
    + exists n. split; [done|]. by rewrite Hpos, bool_decide_eq_true.
  - intros Hnone status [Hprivate|Hstatus].
    + pose proof (λ w, begone_body_private out q w Hnone Hprivate) as Hbody.
      destruct (begone_decided out self q true _ Hbody) with (w := w)
        as [(n & Hn & Hpos) Hreturns].
      { intros w0. cbv beta. by rewrite calls_emit_other. }
      split; [|split; [done|by rewrite Hprivate]].
      exists n. split; [done|]. rewrite Hpos. split; [by left|done].
    + destruct (is_private (chat (cq_message q))) eqn:Hprivate.
      { pose proof (λ w, begone_body_private out q w Hnone Hprivate) as Hbody.
        destruct (begone_decided out self q true _ Hbody) with (w := w)
          as [(n & Hn & Hpos) Hreturns].
        { intros w0. cbv beta. by rewrite calls_emit_other. }
        split; [|split; [done|done]].
        exists n. split; [done|]. rewrite Hpos. split; [by left|done]. }
      pose proof (λ w, begone_body_asks out q status w Hnone Hprivate Hstatus)
        as Hbody.
      destruct (begone_decided out self q _ _ Hbody) with (w := w)
        as [(n & Hn & Hpos) Hreturns].
      { intros w0. cbv beta. by rewrite !calls_emit_other. }
      split; [|split; [done|]].
      * exists n. split; [done|]. rewrite Hpos. split; [by right|].
        by intros [|].
      * intros _.
        destruct (retry_loop_repeats is_GetChatMember (membership_of q)
                    (log_is_bindable self) 3 (begone_body out q) eq_refl
                    eq_refl)
          with (attempts := 6%nat) (attempt := 0%nat)
               (last_error := UnboundLocalError) (w := w) as (m & Hm & Hm1).
        { intros w0. rewrite Hbody.
          destruct (is_admin_status status).
          - unfold gateway, tell.
            destruct (gateway_done out _ _); simpl;
              rewrite !calls_emit; simpl; by rewrite !app_nil_r.
          - simpl. rewrite !calls_emit. simpl. by rewrite !app_nil_r. }
        exists m. split; [apply Hm1; lia|done].
Qed.

Lemma deletion_permission_witness :
  (calls is_GetChatMember (snd (begone offline demo_bot carol_begone fresh))
   = calls is_GetChatMember fresh
   ∧ (∃ n, calls is_DeleteMessage (snd (begone offline demo_bot carol_begone
                                          fresh))
           = calls is_DeleteMessage fresh ++ replicate n (deletion_of carol_begone)
           ∧ ((0 < n)%nat ↔ user_id alice = user_id (cq_from_user carol_begone)))
   ∧ ((∀ tr, gateway_done offline tr (deletion_of carol_begone) = None) →
      fst (begone offline demo_bot carol_begone fresh) = Return tt))
  ∧ ((∃ n, calls is_DeleteMessage (snd (begone all_admins demo_bot
                                          carol_begone_orphan fresh))
           = calls is_DeleteMessage fresh
             ++ replicate n (deletion_of carol_begone_orphan)
           ∧ ((0 < n)%nat ↔
              is_private (chat (cq_message carol_begone_orphan)) = true
              ∨ is_admin_status (lit "administrator") = true))
     ∧ ((∀ tr, gateway_done all_admins tr (deletion_of carol_begone_orphan)
               = None) →
        fst (begone all_admins demo_bot carol_begone_orphan fresh) = Return tt)
     ∧ (is_private (chat (cq_message carol_begone_orphan)) = false →
        ∃ m, (0 < m)%nat
             ∧ calls is_GetChatMember
                 (snd (begone all_admins demo_bot carol_begone_orphan fresh))
               = calls is_GetChatMember fresh
                 ++ replicate m (membership_of carol_begone_orphan))).
Proof.
  split.
  - exact (proj1 (deletion_permission offline demo_bot carol_begone fresh)
             (user_id alice) eq_refl).
  - exact (proj2 (deletion_permission all_admins demo_bot carol_begone_orphan
                    fresh) eq_refl (lit "administrator")
             (or_intror (λ _, eq_refl))).
Defined.

(** * Further properties of the code *)

(** ** The [retry] decorator *)

Lemma retry_loop_gives_up {A} P c has_logger seconds (original : M A) :
  P (Sleep seconds) = false → P (LogMsg "called retry-able") = false →
  quiet is_Sleep original →
  (∀ w, ∃ w', original w = (Raise ConnectionError, w')
              ∧ calls P w' = calls P w ++ [c]) →
  ∀ attempts attempt w, ∃ w',
    retry_loop has_logger seconds original attempts attempt ConnectionError w
    = (Raise ConnectionError, w')
    ∧ calls P w' = calls P w ++ replicate attempts c
    ∧ calls is_Sleep w' = calls is_Sleep w ++ replicate attempts (Sleep seconds).
Proof.
  intros Hsleep Hlog Hquiet Ho attempts.
  induction attempts as [|n IH]; intros attempt w.
  - exists w. simpl. by rewrite !app_nil_r.
  - rewrite retry_loop_S. unfold try_except.
    destruct (Ho w) as (w1 & Hrun & HP). specialize (Hquiet w).
    rewrite Hrun in *. simpl in Hquiet. simpl is_ConnectionError. cbv iota.
    rewrite run_bind. unfold note at 1. rewrite run_bind.
    match goal with
    | |- context [(if ?b then _ else _) ?w2] =>
        assert (∃ w3, (if b then note (LogMsg "called retry-able")
                       else (mret tt : M unit)) w2 = (Return tt, w3)
                      ∧ calls P w3 = calls P w1
                      ∧ calls is_Sleep w3 = calls is_Sleep w1 ++ [Sleep seconds])
          as (w3 & -> & H3 & H3')
    end.
    { destruct (has_logger && _); eexists; (split; [done|]);
        rewrite ?(calls_emit_other _ (LogMsg _)) by done;
        by rewrite calls_emit_other, calls_emit. }
    destruct (IH (S attempt) w3) as (w' & -> & HP' & HS').
    exists w'. split; [done|]. rewrite HP', HS', H3, H3', HP, Hquiet.
    simpl. by rewrite <- !app_assoc.
Qed.

(** X1: a handler that fails with [ConnectionError] at every attempt is
    attempted six times and no more; [retry] sleeps three seconds after
    each failure, the last one included, and then raises the error. *)
Theorem retry_gives_up_after_six {A} P c has_logger (original : M A) w :
  P (Sleep 3) = false → P (LogMsg "called retry-able") = false →
  quiet is_Sleep original →
  (∀ w0, ∃ w1, original w0 = (Raise ConnectionError, w1)
               ∧ calls P w1 = calls P w0 ++ [c]) →
  ∃ w', retry has_logger original w = (Raise ConnectionError, w')
        ∧ calls P w' = calls P w ++ replicate 6 c
        ∧ calls is_Sleep w' = calls is_Sleep w ++ replicate 6 (Sleep 3).
Proof.
  intros Hsleep Hlog Hquiet Ho. unfold retry. rewrite retry_loop_S.
  unfold try_except. destruct (Ho w) as (w1 & Hrun & HP).
  pose proof (Hquiet w) as Hq. rewrite Hrun in *. simpl in Hq.
  simpl is_ConnectionError. cbv iota.
  rewrite run_bind. unfold note at 1. rewrite run_bind.
  rewrite andb_false_r. rewrite run_ret.
  destruct (retry_loop_gives_up P c has_logger 3 original Hsleep Hlog
              Hquiet Ho 5%nat 1%nat (emit (Sleep 3) w1))
    as (w' & -> & HP' & HS').
  exists w'. split; [done|].
  rewrite HP', HS', calls_emit_other, calls_emit, HP, Hq by done.
  simpl. by rewrite <- !app_assoc.
Qed.

Lemma retry_gives_up_after_six_witness :
  ∃ w', retry true (gateway offline (DeleteMessage 1 2)) fresh
        = (Raise ConnectionError, w')
        ∧ calls is_DeleteMessage w'
          = calls is_DeleteMessage fresh ++ replicate 6 (DeleteMessage 1 2)
        ∧ calls is_Sleep w' = calls is_Sleep fresh ++ replicate 6 (Sleep 3).
Proof.
  apply (retry_gives_up_after_six is_DeleteMessage (DeleteMessage 1 2) true
           (gateway offline (DeleteMessage 1 2)) fresh eq_refl eq_refl).
  - by apply quiet_tell.
  - intros w0. eexists. split; [reflexivity|]. by rewrite calls_emit.
Defined.

(** What [retry] ends with is what some attempt ended with: a property of
    every attempt's outcome is one of the outcome of [retry]. *)
Lemma retry_loop_outcome {A} (Q : outcome A → Prop) has_logger seconds
    (original : M A) :
  (∀ w, Q (fst (original w))) →
  ∀ attempts attempt last_error w,
    Q (Raise last_error) →
    Q (fst (retry_loop has_logger seconds original attempts attempt
              last_error w)).
Proof.
  intros Ho attempts.
  induction attempts as [|n IH]; intros attempt last_error w Hlast; [done|].
  rewrite retry_loop_S. unfold try_except. specialize (Ho w).
  destruct (original w) as [[a|e] w1]; [done|]. simpl in Ho.
  destruct (is_ConnectionError e); [|done].
  rewrite run_bind. unfold note at 1. rewrite run_bind.
  destruct (has_logger && _); by apply IH.
Qed.

(** ** [delete_after_delay] *)

(** X2: [delete_after_delay] never ends with an [ApiException]. When the
    gateway refuses the deletion with one (the message is gone already),
    the function returns after a single attempt: it has slept [delay]
    seconds, asked for the deletion once, and logged the refusal if it
    was given a logger. *)
Theorem delete_after_delay_swallows_refusal out message delay log w :
  let deletion := DeleteMessage (chat_id (chat message)) (message_id message) in
  fst (delete_after_delay out message delay log w) ≠ Raise ApiException
  ∧ (gateway_done out (trace w ++ [Sleep delay]) deletion = Some ApiException →
     delete_after_delay out message delay log w
     = (Return tt,
        after w ([Sleep delay; deletion]
                 ++ if log
                    then [LogMsg "failed to delete message (it's probably gone already)"]
                    else []))).
Proof.
  intros deletion. split.
  - unfold delete_after_delay, retry.
    apply (retry_loop_outcome (λ r, r ≠ Raise ApiException)); [|done].
    intros w0. unfold delete_after_delay_body. rewrite run_bind.
    unfold note at 1, try_except, gateway, tell.
    destruct (gateway_done out _ _) as [[]|]; simpl; try done.
    by destruct log.
  - intros Hgone. apply retry_Return.
    unfold delete_after_delay_body. rewrite run_bind.
    unfold note at 1, try_except, gateway, tell. simpl trace.
    fold deletion. rewrite Hgone. simpl. by destruct log.
Qed.

Lemma delete_after_delay_swallows_refusal_witness :
  delete_after_delay already_gone bot_reply 30 true fresh
  = (Return tt,
     after fresh [Sleep 30; DeleteMessage (-1001) 100;
                  LogMsg "failed to delete message (it's probably gone already)"]).
Proof.
  exact (proj2 (delete_after_delay_swallows_refusal already_gone bot_reply 30
                  true fresh) eq_refl).
Defined.

(** ** [send_image] *)

(** X3: an image of 300000 bytes or more is never offered as a photo:
    whatever else happens, [send_image] makes no [send_photo] call. *)
Theorem large_image_is_never_a_photo out chat_id png_path reply_msg_id log
    size w :
  (∀ tr, file_size out tr png_path = inr size) →
  300000 ≤ size →
  calls is_SendPhoto (snd (send_image out chat_id png_path reply_msg_id log w))
  = calls is_SendPhoto w.
Proof.
  intros Hsize Hlarge. apply quiet_retry; [done..|]. intros w0.
  unfold send_image_body. rewrite run_bind. unfold gateway at 1, tell.
  destruct (gateway_done out _ _) as [e|]; [by apply calls_emit_other|].
  rewrite run_bind. unfold ask at 1. rewrite Hsize.
  replace (size <? 300000) with false by lia.
  unfold gateway_returning, ask.
  destruct (gateway_message out _ _); simpl; by rewrite !calls_emit_other.
Qed.

Lemma large_image_is_never_a_photo_witness :
  calls is_SendPhoto
    (snd (send_image large_images 7 (lit "/tmp/a.png") 12 false fresh)) = [].
Proof.
  apply (large_image_is_never_a_photo large_images 7 (lit "/tmp/a.png") 12
           false 450000 fresh); [reflexivity|lia].
Defined.

(** X4: a small image that the gateway refuses as a photo with an
    [ApiException] is sent again as a document, in the same attempt, and
    [send_image] returns the message of the document. The refusal is
    logged only when a logger was passed. *)
Theorem refused_photo_is_sent_as_document out chat_id png_path reply_msg_id log
    size m w :
  (∀ tr, gateway_done out tr (SendChatAction chat_id (lit "upload_photo")) = None) →
  (∀ tr, file_size out tr png_path = inr size) →
  size < 300000 →
  (∀ tr, gateway_message out tr (SendPhoto chat_id png_path reply_msg_id)
         = inl ApiException) →
  (∀ tr, gateway_message out tr (SendDocument chat_id png_path reply_msg_id)
         = inr m) →
  send_image out chat_id png_path reply_msg_id log w
  = (Return m,
     after w ([SendChatAction chat_id (lit "upload_photo");
               StatSize png_path;
               SendPhoto chat_id png_path reply_msg_id]
              ++ (if log then [LogMsg "failed to send compressed image"] else [])
              ++ [SendDocument chat_id png_path reply_msg_id])).
Proof.
  intros Haction Hsize Hsmall Hphoto Hdoc. apply retry_Return.
  unfold send_image_body. rewrite run_bind. unfold gateway at 1, tell.
  rewrite Haction. rewrite run_bind. unfold ask at 1. rewrite Hsize.
  replace (size <? 300000) with true by lia.
  unfold try_except, gateway_returning, ask. rewrite Hphoto. simpl.
  destruct log; run; by rewrite Hdoc.
Qed.

Lemma refused_photo_is_sent_as_document_witness :
  send_image upload_refused_once 7 (lit "/tmp/a.png") 12 false fresh
  = (Return bot_reply,
     after fresh [SendChatAction 7 (lit "upload_photo");
                  StatSize (lit "/tmp/a.png");
                  SendPhoto 7 (lit "/tmp/a.png") 12;
                  SendDocument 7 (lit "/tmp/a.png") 12]).
Proof.
  apply (refused_photo_is_sent_as_document upload_refused_once 7
           (lit "/tmp/a.png") 12 false 1000 bot_reply fresh);
    first [reflexivity | lia | intros; reflexivity].
Defined.

(** ** [code_subcontent] *)

Lemma split_from_word s t :
  whitespace_free s → ∀ cur, split_from cur (s ++ t) = split_from (rev s ++ cur) t.
Proof.
  induction 1 as [|c s Hc _ IH]; intros cur; simpl; [done|].
  rewrite Hc, IH. by rewrite <- app_assoc.
Qed.

Lemma split_from_spaces s :
  Forall (λ c, isspace c = true) s → split_from [] s = [].
Proof. induction 1 as [|c s Hc _ IH]; simpl; [done|]. by rewrite Hc. Qed.

Lemma rev_nil_inv (s : str) : rev s = [] → s = [].
Proof.
  destruct s as [|x s]; [done|]. simpl. by destruct (rev s).
Qed.

Lemma split_one_word s : one_word s → split s = [s].
Proof.
  intros [Hne Hfree]. unfold split.
  rewrite <- (app_nil_r s) at 1. rewrite split_from_word by done.
  rewrite app_nil_r. simpl. destruct (rev s) eqn:Hrev.
  - by apply rev_nil_inv in Hrev.
  - by rewrite <- Hrev, rev_involutive.
Qed.

(** X5: the one-word test is made on the joined spans, not on each span:
    a message with two code spans of one word each is taken as a snippet,
    the two words joined by a blank line. *)
Theorem two_one_word_spans_make_a_snippet message a b :
  code_spans message = [a; b] → one_word a → one_word b →
  code_subcontent message = Some (a ++ [10; 10]%N ++ b)
  ∧ split (a ++ [10; 10]%N ++ b) = [a; b].
Proof.
  intros Hspans Ha Hb.
  assert (Hsplit : split (a ++ [10; 10]%N ++ b) = [a; b]).
  { unfold split. rewrite split_from_word by apply Ha.
    rewrite app_nil_r. simpl. destruct (rev a) eqn:Hrev.
    { apply rev_nil_inv in Hrev. by destruct Ha. }
    rewrite <- Hrev, rev_involutive. f_equal. by apply split_one_word. }
  split; [|done]. rewrite code_subcontent_spans, Hspans. cbv zeta.
  change (join [10; 10]%N [a; b]) with (a ++ [10; 10]%N ++ b).
  rewrite Hsplit. done.
Qed.

Lemma two_one_word_spans_make_a_snippet_witness :
  code_subcontent two_words_message = Some (lit "git" ++ [10; 10]%N ++ lit "push").
Proof.
  refine (proj1 (two_one_word_spans_make_a_snippet two_words_message
                   (lit "git") (lit "push") eq_refl _ _));
    (split; [discriminate|vm_compute; repeat constructor]).
Defined.

(** X6: what [code_subcontent] returns holds at least two words: it has
    a whitespace character in it and a character that is not one. *)
Theorem code_subcontent_has_two_words message c :
  code_subcontent message = Some c →
  (1 < length (split c))%nat
  ∧ Exists (λ x, isspace x = true) c
  ∧ Exists (λ x, isspace x = false) c.
Proof.
  intros Hsub.
  assert (Hwords : (1 < length (split c))%nat).
  { pose proof (code_subcontent_Some _ _ Hsub) as ->.
    rewrite code_subcontent_spans in Hsub.
    destruct (code_spans message) as [|s spans]; [done|].
    cbv zeta in Hsub. by case_bool_decide. }
  split; [done|]. split.
  - destruct (decide (Exists (λ x, isspace x = true) c)) as [|Hno]; [done|].
    assert (whitespace_free c) as Hfree.
    { apply Forall_forall. intros x Hx.
      destruct (isspace x) eqn:Hsp; [|done].
      exfalso. apply Hno, Exists_exists. by exists x. }
    pose proof (split_from_whitespace_free c Hfree []). unfold split in Hwords.
    lia.
  - destruct (decide (Exists (λ x, isspace x = false) c)) as [|Hno]; [done|].
    assert (Forall (λ x, isspace x = true) c) as Hall.
    { apply Forall_forall. intros x Hx.
      destruct (isspace x) eqn:Hsp; [done|].
      exfalso. apply Hno, Exists_exists. by exists x. }
    unfold split in Hwords. rewrite split_from_spaces in Hwords by done.
    simpl in Hwords. lia.
Qed.

Lemma code_subcontent_has_two_words_witness :
  (1 < length (split (text group_snippet)))%nat.
Proof.
  exact (proj1 (code_subcontent_has_two_words group_snippet
                  (text group_snippet) eq_refl)).
Defined.

(** ** [is_from_group_admin_or_creator] *)

Lemma is_admin_status_true status :
  is_admin_status status = true ↔
  status = lit "administrator" ∨ status = lit "creator".
Proof.
  unfold is_admin_status. rewrite orb_true_iff, !bool_decide_eq_true. done.
Qed.

(** X7: in a private chat the check is passed without a question to the
    gateway. In any other chat the gateway is asked once for the
    sender's membership, and the check is passed exactly when the status
    is [administrator] or [creator]; when the gateway fails, its
    exception is the outcome. *)
Theorem moderation_check out x w :
  (is_private (chat_of x) = true →
   is_from_group_admin_or_creator out x w = (Return true, w))
  ∧ (is_private (chat_of x) = false →
     ∀ uid, sender_of x = Some uid →
       let question := GetChatMember (chat_id (chat_of x)) uid in
       match member_status out (trace w) (chat_id (chat_of x)) uid with
       | inr status =>
           ∃ passed,
             is_from_group_admin_or_creator out x w
             = (Return passed, emit question w)
             ∧ (passed = true ↔
                status = lit "administrator" ∨ status = lit "creator")
       | inl e =>
           is_from_group_admin_or_creator out x w = (Raise e, emit question w)
       end).
Proof.
  split.
  - intros Hp. destruct x as [message|query]; simpl in *; by rewrite Hp.
  - intros Hp uid Hsender question. subst question.
    destruct x as [message|query]; simpl in *; rewrite Hp.
    + destruct (from_user message) as [u|]; [|done].
      injection Hsender as <-. run. unfold ask.
      destruct (member_status out _ _ _) as [e|status]; [done|].
      eexists. split; [done|]. apply is_admin_status_true.
    + injection Hsender as <-. run. unfold ask.
      destruct (member_status out _ _ _) as [e|status]; [done|].
      eexists. split; [done|]. apply is_admin_status_true.
Qed.

Lemma moderation_check_witness :
  ∃ passed,
    is_from_group_admin_or_creator calm (IsMessage group_snippet) fresh
    = (Return passed, emit (GetChatMember (-1001) 7) fresh)
    ∧ (passed = true ↔
       lit "member" = lit "administrator" ∨ lit "member" = lit "creator").
Proof.
  exact (proj2 (moderation_check calm (IsMessage group_snippet) fresh)
           eq_refl 7 eq_refl).
Defined.

(** ** The keys of the per-user requests *)

Lemma lit_String a s : lit (String a s) = Ascii.N_of_ascii a :: lit s.
Proof. reflexivity. Qed.

Lemma lit_inj s t : lit s = lit t → s = t.
Proof.
  revert t. induction s as [|a s IH]; intros [|b t]; try done.
  rewrite !lit_String. intros [= Hab Hst]. f_equal; [|by apply IH].
  rewrite <- (Ascii.ascii_N_embedding a), <- (Ascii.ascii_N_embedding b).
  by rewrite Hab.
Qed.

Lemma pretty_N_go_no_colon x s :
  58%N ∉ lit s → 58%N ∉ lit (pretty_N_go x s).
Proof.
  revert s. induction (N.lt_wf_0 x) as [x _ IH]; intros s Hs.
  assert (x = 0 ∨ 0 < x)%N as [->|Hpos] by lia.
  - by rewrite pretty_N_go_0.
  - rewrite pretty_N_go_step by done. apply IH; [by apply N.div_lt|].
    rewrite lit_String. apply not_elem_of_cons. split; [|done].
    unfold pretty_N_char. by repeat case_match.
Qed.

Lemma str_of_int_no_colon n : 58%N ∉ str_of_int n.
Proof.
  assert (Hpos : ∀ p : positive, 58%N ∉ lit (pretty p)).
  { intros p. unfold pretty, pretty_positive, pretty, pretty_N.
    case_decide; [done|]. by apply pretty_N_go_no_colon, not_elem_of_nil. }
  unfold str_of_int, pretty, pretty_Z. destruct n as [|p|p].
  - apply (bool_decide_unpack _). by vm_compute.
  - apply Hpos.
  - change (lit ("-" +:+ pretty p)) with (45%N :: lit (pretty p)).
    apply not_elem_of_cons. split; [done|]. apply Hpos.
Qed.

Lemma split_at_colon (a a' b b' : str) :
  58%N ∉ a → 58%N ∉ a' → a ++ 58%N :: b = a' ++ 58%N :: b' → a = a' ∧ b = b'.
Proof.
  revert a'. induction a as [|x a IH]; intros [|x' a'] Ha Ha'; simpl.
  - by intros [= ->].
  - intros [= <- _]. by apply not_elem_of_cons in Ha' as [? _].
  - intros [= -> _]. by apply not_elem_of_cons in Ha as [? _].
  - intros [= -> Hrest].
    apply not_elem_of_cons in Ha as [_ Ha].
    apply not_elem_of_cons in Ha' as [_ Ha'].
    destruct (IH a' Ha Ha' Hrest) as [-> ->]. done.
Qed.

Lemma str_of_int_inj n n' : str_of_int n = str_of_int n' → n = n'.
Proof. intros H%lit_inj. by apply (inj pretty). Qed.

Lemma request_key_eq_inv chat_id user_id chat_id' user_id' :
  request_key chat_id user_id = request_key chat_id' user_id' →
  chat_id = chat_id' ∧ user_id = user_id'.
Proof.
  unfold request_key. change (lit ":") with [58%N]. simpl.
  intros [Hc Hu]%split_at_colon; [|apply str_of_int_no_colon..].
  split; by apply str_of_int_inj.
Qed.

(** X8: the key [f"{chat.id}:{user.id}"] under which a request is stored
    tells the chat and the user apart: two keys are equal exactly for
    the same chat and the same user. *)
Theorem request_key_inj chat_id user_id chat_id' user_id' :
  request_key chat_id user_id = request_key chat_id' user_id' ↔
  chat_id = chat_id' ∧ user_id = user_id'.
Proof.
  split; [apply request_key_eq_inv|]. by intros [-> ->].
Qed.

(** ** [ignore_group_user] and [watch_group_user] *)

Lemma should_process_other w w' cid uid cid' uid' v :
  ignore_mode_groups w' = ignore_mode_groups w →
  group_user_current_watchme_requests w'
  = <[request_key cid uid := v]> (group_user_current_watchme_requests w) →
  (cid', uid') ≠ (cid, uid) →
  should_process w' cid' uid' = should_process w cid' uid'.
Proof.
  intros Hmode Hreq Hne. unfold should_process. rewrite Hmode, Hreq.
  rewrite lookup_insert_ne; [done|].
  intros [-> ->]%request_key_eq_inv. done.
Qed.

Lemma ignore_group_user_run self message u w :
  from_user message = Some u →
  ignore_group_user self message w
  = (Return tt,
     {| group_syntaxes := group_syntaxes w;
        ignore_mode_groups := ignore_mode_groups w;
        group_user_current_watchme_requests :=
          <[request_key (chat_id (chat message)) (user_id u) := lit "ignore"]>
            (group_user_current_watchme_requests w);
        trace := trace w ++ [LogMsg "ignoring group user"] |}).
Proof.
  intros Hu. apply retry_Return. unfold ignore_group_user_body.
  by rewrite Hu.
Qed.

Lemma watch_group_user_run self message u w :
  from_user message = Some u →
  watch_group_user self message w
  = (Return tt,
     {| group_syntaxes := group_syntaxes w;
        ignore_mode_groups := ignore_mode_groups w;
        group_user_current_watchme_requests :=
          <[request_key (chat_id (chat message)) (user_id u) := lit "watch"]>
            (group_user_current_watchme_requests w);
        trace := trace w ++ [LogMsg "watching group user"] |}).
Proof.
  intros Hu. apply retry_Return. unfold watch_group_user_body.
  by rewrite Hu.
Qed.

(** X9: after [/ignoreme] the sender's messages in that chat are not
    processed, whatever the mode of the chat; nobody else and no other
    chat is affected, and the chat's mode and default syntax stay as
    they were. *)
Theorem ignoreme_silences_the_sender self message u w :
  from_user message = Some u →
  let cid := chat_id (chat message) in
  let w' := snd (ignore_group_user self message w) in
  fst (ignore_group_user self message w) = Return tt
  ∧ should_process w' cid (user_id u) = false
  ∧ (∀ cid' uid', (cid', uid') ≠ (cid, user_id u) →
       should_process w' cid' uid' = should_process w cid' uid')
  ∧ group_syntaxes w' = group_syntaxes w
  ∧ ignore_mode_groups w' = ignore_mode_groups w.
Proof.
  intros Hu cid w'. subst w'. rewrite (ignore_group_user_run _ _ _ _ Hu).
  simpl. repeat split.
  - unfold should_process. simpl. rewrite lookup_insert_eq. simpl.
    by destruct (default false _).
  - intros cid' uid' Hne. by eapply should_process_other.
Qed.

Lemma ignoreme_silences_the_sender_witness :
  should_process (snd (ignore_group_user demo_bot group_snippet opted_in))
    (-1001) 7 = false.
Proof.
  exact (proj1 (proj2 (ignoreme_silences_the_sender demo_bot group_snippet
                         alice opted_in eq_refl))).
Defined.

(** X10: after [/watchme] the sender's messages in that chat are
    processed, whatever the mode of the chat, a group in ignore mode
    included; nobody else and no other chat is affected. A later
    [/ignoreme] takes it back: the last of the two commands decides. *)
Theorem watchme_enables_the_sender self message u w :
  from_user message = Some u →
  let cid := chat_id (chat message) in
  let w' := snd (watch_group_user self message w) in
  fst (watch_group_user self message w) = Return tt
  ∧ should_process w' cid (user_id u) = true
  ∧ (∀ cid' uid', (cid', uid') ≠ (cid, user_id u) →
       should_process w' cid' uid' = should_process w cid' uid')
  ∧ group_syntaxes w' = group_syntaxes w
  ∧ ignore_mode_groups w' = ignore_mode_groups w
  ∧ should_process (snd (ignore_group_user self message w')) cid (user_id u)
    = false.
Proof.
  intros Hu cid w'. subst w'. rewrite (watch_group_user_run _ _ _ _ Hu).
  simpl. repeat split.
  - unfold should_process. simpl. rewrite lookup_insert_eq. simpl.
    by destruct (default false _).
  - intros cid' uid' Hne. by eapply should_process_other.
  - rewrite (ignore_group_user_run _ _ _ _ Hu). unfold should_process. simpl.
    rewrite lookup_insert_eq. simpl. by destruct (default false _).
Qed.

Lemma watchme_enables_the_sender_witness :
  should_process (snd (watch_group_user demo_bot group_snippet ignoring_group))
    (-1001) 7 = true.
Proof.
  exact (proj1 (proj2 (watchme_enables_the_sender demo_bot group_snippet
                         alice ignoring_group eq_refl))).
Defined.

(** ** The snippet path leaves the tables alone *)

Lemma keeps_ret {A} (a : A) : keeps (mret a : M A).
Proof. by intros w. Qed.

Lemma keeps_throw {A} (e : exn) : keeps (mthrow e : M A).
Proof. by intros w. Qed.

Lemma keeps_bind {A B} (m : M A) (f : A → M B) :
  keeps m → (∀ a, keeps (f a)) → keeps (m ≫= f).
Proof.
  intros Hm Hf w. rewrite run_bind. specialize (Hm w).
  destruct (m w) as [[a|e] w']; simpl in *; [|done].
  by rewrite Hf.
Qed.

Lemma keeps_try_except {A} (body : M A) caught handler :
  keeps body → (∀ e, keeps (handler e)) → keeps (try_except body caught handler).
Proof.
  intros Hb Hh w. unfold try_except. specialize (Hb w).
  destruct (body w) as [[a|e] w']; simpl in *; [done|].
  destruct (caught e); simpl; [|done]. by rewrite Hh.
Qed.

Lemma keeps_note c : keeps (note c).
Proof. by intros w. Qed.

Lemma keeps_ask {A} c (answer : list call → exn + A) : keeps (ask c answer).
Proof. intros w. unfold ask. by destruct (answer (trace w)). Qed.

Lemma keeps_tell c answer : keeps (tell c answer).
Proof. intros w. unfold tell. by destruct (answer (trace w)). Qed.

Lemma keeps_read {A} (f : World → A) : keeps (read f).
Proof. by intros w. Qed.

Lemma keeps_if {A} (b : bool) (m1 m2 : M A) :
  keeps m1 → keeps m2 → keeps (if b then m1 else m2).
Proof. by destruct b. Qed.

Lemma keeps_retry_loop {A} has_logger seconds (original : M A) :
  keeps original →
  ∀ attempts attempt last_error,
    keeps (retry_loop has_logger seconds original attempts attempt last_error).
Proof.
  intros Ho attempts.
  induction attempts as [|n IH]; intros attempt last_error; simpl.
  - apply keeps_throw.
  - apply keeps_try_except; [done|]. intros e.
    apply keeps_bind; [apply keeps_note|]. intros _.
    apply keeps_bind; [|intros _; apply IH].
    apply keeps_if; [apply keeps_note|apply keeps_ret].
Qed.

Lemma keeps_retry {A} has_logger (original : M A) :
  keeps original → keeps (retry has_logger original).
Proof. intros. by apply keeps_retry_loop. Qed.

Lemma keeps_for_each {A} (xs : list A) (body : A → M unit) :
  (∀ x, keeps (body x)) → keeps (for_each xs body).
Proof.
  intros Hb. induction xs as [|x xs IH]; simpl; [apply keeps_ret|].
  by apply keeps_bind.
Qed.

Lemma keeps_id_of u : keeps (id_of u).
Proof. by destruct u. Qed.

Lemma keeps_group_syntax_of chat_id : keeps (group_syntax_of chat_id).
Proof.
  intros w. unfold group_syntax_of. by destruct (group_syntaxes w !! chat_id).
Qed.

Lemma keeps_simple_guess items code : keeps (simple_guess items code).
Proof.
  induction items as [|[start ext] items IH]; simpl; [apply keeps_ret|].
  apply keeps_if; [|done].
  apply keeps_bind; [apply keeps_note|intros _; apply keeps_ret].
Qed.

(** The tables are kept by a handler written with the operations that
    keep them, piece by piece. *)
Ltac keeps_steps :=
  repeat first
    [ apply keeps_ret
    | apply keeps_throw
    | apply keeps_note
    | apply keeps_ask
    | apply keeps_tell
    | apply keeps_read
    | apply keeps_id_of
    | apply keeps_group_syntax_of
    | apply keeps_simple_guess
    | apply keeps_retry
    | apply keeps_for_each; intros ?
    | apply keeps_bind; [|intros ?]
    | apply keeps_try_except; [|intros ?]
    | apply keeps_if
    | match goal with
      | |- keeps (match ?x with _ => _ end) => destruct x
      end ].

Lemma keeps_send_image out chat_id png_path reply_msg_id log :
  keeps (send_image out chat_id png_path reply_msg_id log).
Proof.
  unfold send_image, send_image_body, gateway, gateway_returning. keeps_steps.
Qed.

Lemma keeps_set_snippet_filetype out self cb_query snippet ext :
  keeps (set_snippet_filetype out self cb_query snippet ext).
Proof.
  unfold set_snippet_filetype, set_snippet_filetype_body. apply keeps_retry.
  apply keeps_bind.
  { unfold gateway. keeps_steps. }
  intros [snippet' ext']. apply keeps_bind; [keeps_steps|]. intros s.
  unfold send_theme, mk_png, gateway. keeps_steps.
Qed.

Lemma keeps_resolve out self message text_content :
  keeps (resolve out self message text_content).
Proof. unfold resolve, guess_ext. keeps_steps. Qed.

Lemma keeps_intake_snippet_body out self message :
  keeps (intake_snippet_body out self message).
Proof.
  unfold intake_snippet_body, process_snippet, gateway_returning. keeps_steps.
Qed.

(** X11: handling a snippet, a choice of syntax or a deletion request
    never changes the configuration: the default syntaxes, the modes of
    the chats and the per-user requests are after [intake_snippet],
    [set_snippet_filetype], [begone] and [delete_after_delay] what they
    were before, whatever the outside answers. *)
Theorem snippet_path_keeps_tables out self w :
  (∀ message, stores (snd (intake_snippet out self message w)) = stores w)
  ∧ (∀ cb_query snippet ext,
       stores (snd (set_snippet_filetype out self cb_query snippet ext w))
       = stores w)
  ∧ (∀ cb_query, stores (snd (begone out self cb_query w)) = stores w)
  ∧ (∀ message delay log,
       stores (snd (delete_after_delay out message delay log w)) = stores w).
Proof.
  repeat split.
  - intros message. revert w.
    change (keeps (intake_snippet out self message)).
    apply keeps_retry, keeps_intake_snippet_body.
  - intros cb_query snippet ext. apply keeps_set_snippet_filetype.
  - intros cb_query. revert w. change (keeps (begone out self cb_query)).
    unfold begone, begone_body, is_from_group_admin_or_creator, gateway.
    keeps_steps.
  - intros message delay log. revert w.
    change (keeps (delete_after_delay out message delay log)).
    unfold delete_after_delay, delete_after_delay_body, gateway. keeps_steps.
Qed.

(** ** Handlers at the desk *)

Ltac run_desk :=
  cbv beta iota zeta delta
    [mbind M_bind D_bind mret M_ret D_ret mthrow M_throw D_throw
     note read write id_of lift].

Lemma run_bind_D {A B} (m : D A) (f : A → D B) (d : Desk) :
  (m ≫= f) d = match m d with
               | (Return a, d') => f a d'
               | (Raise e, d') => (Raise e, d')
               end.
Proof. reflexivity. Qed.

Lemma run_lift {A} (m : M A) (d : Desk) :
  lift m d = (fst (m (world d)),
              {| world := snd (m (world d)); further := further d |}).
Proof. unfold lift. by destruct (m (world d)). Qed.

Lemma retry_loop_D_S {A} has_logger seconds (original : D A) n attempt last_error :
  retry_loop_D has_logger seconds original (S n) attempt last_error
  = try_except_D original is_ConnectionError (λ e,
      lift (note (Sleep seconds)) ;;
      (if has_logger && bool_decide (0 < attempt)%nat
       then lift (note (LogMsg "called retry-able"))
       else mret tt) ;;
      retry_loop_D has_logger seconds original n (S attempt) e).
Proof. reflexivity. Qed.

Lemma retry_D_Return {A} (has_logger : bool) (original : D A) d a d' :
  original d = (Return a, d') → retry_D has_logger original d = (Return a, d').
Proof.
  intros H. unfold retry_D. rewrite retry_loop_D_S. unfold try_except_D.
  by rewrite H.
Qed.

(** When every attempt, started where [R] holds, ends where [Q] holds,
    and [Q] is kept by the sleeps and log lines between the attempts,
    [retry] ends where [Q] holds. *)
Lemma retry_loop_D_post {A} (R Q : Desk → Prop) has_logger seconds
    (original : D A) :
  (∀ d, R d → Q (snd (original d))) →
  (∀ d, Q d → R d) →
  (∀ c d, Q d → Q (snd (lift (note c) d))) →
  ∀ n attempt last_error d,
    R d →
    Q (snd (retry_loop_D has_logger seconds original (S n) attempt
              last_error d)).
Proof.
  intros Ho HQR Hnote n.
  induction n as [|n IH]; intros attempt last_error d HR;
    rewrite retry_loop_D_S; unfold try_except_D;
    specialize (Ho d HR); destruct (original d) as [[a|e] d1];
    simpl in Ho; try done;
    (destruct (is_ConnectionError e); [|done]);
    rewrite run_bind_D;
    pose proof (Hnote (Sleep seconds) d1 Ho) as H2;
    destruct (lift (note (Sleep seconds)) d1) as [[[]|e2] d2] eqn:Hs;
    try (by unfold lift, note in Hs); simpl in H2;
    rewrite run_bind_D.
  - assert (∃ d3, (if has_logger && bool_decide (0 < attempt)%nat
                   then lift (note (LogMsg "called retry-able"))
                   else (mret tt : D unit)) d2 = (Return tt, d3) ∧ Q d3)
      as (d3 & -> & H3).
    { destruct (has_logger && _).
      - pose proof (Hnote (LogMsg "called retry-able") d2 H2) as H3.
        unfold lift, note in *. simpl in *. by eexists.
      - by eexists. }
    done.
  - assert (∃ d3, (if has_logger && bool_decide (0 < attempt)%nat
                   then lift (note (LogMsg "called retry-able"))
                   else (mret tt : D unit)) d2 = (Return tt, d3) ∧ Q d3)
      as (d3 & -> & H3).
    { destruct (has_logger && _).
      - pose proof (Hnote (LogMsg "called retry-able") d2 H2) as H3.
        unfold lift, note in *. simpl in *. by eexists.
      - by eexists. }
    apply IH. by apply HQR.
Qed.

Lemma moderator_passes out x w :
  always_moderator out x →
  is_from_group_admin_or_creator out x w = (Return true, checked x w).
Proof.
  unfold checked. intros [Hp|(uid & status & Hsender & Hstatus & Hadmin)].
  - destruct x; simpl in *; by rewrite Hp.
  - destruct x as [message|query]; simpl in *;
      destruct (is_private _); try done.
    + destruct (from_user message) as [u|]; [|done].
      injection Hsender as <-. run. unfold ask. by rewrite Hstatus, Hadmin.
    + injection Hsender as <-. run. unfold ask. by rewrite Hstatus, Hadmin.
Qed.

Lemma non_moderator_fails out x w :
  never_moderator out x →
  is_from_group_admin_or_creator out x w = (Return false, checked x w).
Proof.
  unfold checked. intros (Hp & uid & status & Hsender & Hstatus & Hadmin).
  destruct x as [message|query]; simpl in *; rewrite Hp.
  - destruct (from_user message) as [u|]; [|done].
    injection Hsender as <-. run. unfold ask. by rewrite Hstatus, Hadmin.
  - injection Hsender as <-. run. unfold ask. by rewrite Hstatus, Hadmin.
Qed.

Lemma stores_checked x w : stores (checked x w) = stores w.
Proof.
  unfold checked. destruct (is_private _); [done|]. by destruct (sender_of x).
Qed.

Lemma get_group_config_md_run self panels chat_id w :
  get_group_config_md self panels chat_id w
  = (Return (config_text panels w chat_id), w).
Proof. by apply retry_Return. Qed.

Lemma show_group_options_run beyond self panels q d :
  show_group_options beyond self panels q d
  = gateway_further beyond
      (EditMessageText
         (config_text panels (world d) (chat_id (chat (cq_message q))))
         (chat_id (chat (cq_message q))) (message_id (cq_message q))
         (kb_group_options panels)) d.
Proof.
  unfold show_group_options. cbv zeta. rewrite run_bind_D, run_lift.
  rewrite get_group_config_md_run. simpl. by destruct d.
Qed.

Lemma world_gateway_further beyond c d :
  world (snd (gateway_further beyond c d)) = world d.
Proof. unfold gateway_further. by destruct (further_done _ _ _ _). Qed.

Lemma further_gateway_further beyond c d :
  further (snd (gateway_further beyond c d))
  = further d ++ [(length (trace (world d)), c)].
Proof. unfold gateway_further. by destruct (further_done _ _ _ _). Qed.

(** One press of the toggle by a moderator. *)
Lemma toggle_group_watch_run out beyond self panels q d :
  always_moderator out (IsCallbackQuery q) →
  let cid := chat_id (chat (cq_message q)) in
  let w1 :=
    set_ignore_mode cid
      (negb (default false (ignore_mode_groups (world d) !! cid)))
      (emit (LogMsg "user trying to toggle group watch mode")
         (checked (IsCallbackQuery q) (world d))) in
  toggle_group_watch out beyond self panels q d
  = gateway_further beyond
      (EditMessageText (config_text panels w1 cid) cid
         (message_id (cq_message q)) (kb_group_options panels))
      {| world := w1; further := further d |}.
Proof.
  intros Hmod cid w1. unfold toggle_group_watch.
  rewrite run_bind_D, run_lift, (moderator_passes _ _ _ Hmod). simpl.
  rewrite run_bind_D, run_lift. simpl. rewrite run_bind_D, run_lift. simpl.
  rewrite show_group_options_run. simpl.
  assert (Hsame : ignore_mode_groups (checked (IsCallbackQuery q) (world d))
                  = ignore_mode_groups (world d)).
  { pose proof (stores_checked (IsCallbackQuery q) (world d)) as Hs.
    by injection Hs. }
  subst w1 cid. by rewrite Hsame.
Qed.

(** ** The settings of a group *)

Lemma chat_mode_set_ignore_mode cid flag w cid' :
  chat_mode (set_ignore_mode cid flag w) cid'
  = if decide (cid' = cid) then (if flag then Ignore else Watch)
    else chat_mode w cid'.
Proof.
  unfold chat_mode. simpl. case_decide as Hc.
  - subst. rewrite lookup_insert_eq. by destruct flag.
  - by rewrite lookup_insert_ne.
Qed.

Lemma chat_mode_default w cid :
  chat_mode w cid
  = if default false (ignore_mode_groups w !! cid) then Ignore else Watch.
Proof.
  unfold chat_mode. by destruct (ignore_mode_groups w !! cid) as [[]|].
Qed.

(** What one press of the toggle by a moderator does to the tables. *)
Lemma toggle_effect out beyond self panels q d :
  always_moderator out (IsCallbackQuery q) →
  let cid := chat_id (chat (cq_message q)) in
  let d' := snd (toggle_group_watch out beyond self panels q d) in
  ignore_mode_groups (world d')
  = <[cid := negb (default false (ignore_mode_groups (world d) !! cid))]>
      (ignore_mode_groups (world d))
  ∧ group_syntaxes (world d') = group_syntaxes (world d)
  ∧ group_user_current_watchme_requests (world d')
    = group_user_current_watchme_requests (world d).
Proof.
  intros Hmod cid d'. subst d'.
  rewrite (toggle_group_watch_run _ _ _ _ _ _ Hmod). fold cid.
  rewrite world_gateway_further. simpl.
  pose proof (stores_checked (IsCallbackQuery q) (world d)) as Hs.
  injection Hs as Hg Hi Hr. by rewrite Hg, Hi, Hr.
Qed.

Lemma chat_mode_toggled w w' cid cid' :
  ignore_mode_groups w'
  = <[cid := negb (default false (ignore_mode_groups w !! cid))]>
      (ignore_mode_groups w) →
  chat_mode w' cid'
  = if decide (cid' = cid) then flip (chat_mode w cid) else chat_mode w cid'.
Proof.
  intros Hi. rewrite (chat_mode_default w cid). unfold chat_mode at 1.
  rewrite Hi. case_decide as Hc.
  - subst. rewrite lookup_insert_eq. by destruct (default false _).
  - rewrite lookup_insert_ne by done. done.
Qed.

(** X12: a press of the toggle by a moderator turns the mode of that
    chat over, [Watch] to [Ignore] and back, and touches nothing else:
    the other chats, the default syntaxes and the per-user requests stay
    as they were. The mode is changed before the panel is shown again,
    so it is changed also when the gateway then fails; the panel that is
    sent shows the new mode. *)
Theorem toggle_flips_the_mode out beyond self panels q d :
  always_moderator out (IsCallbackQuery q) →
  let cid := chat_id (chat (cq_message q)) in
  let d' := snd (toggle_group_watch out beyond self panels q d) in
  chat_mode (world d') cid = flip (chat_mode (world d) cid)
  ∧ (∀ cid', cid' ≠ cid → chat_mode (world d') cid' = chat_mode (world d) cid')
  ∧ group_syntaxes (world d') = group_syntaxes (world d)
  ∧ group_user_current_watchme_requests (world d')
    = group_user_current_watchme_requests (world d)
  ∧ ∃ stamp,
      further d'
      = further d
        ++ [(stamp, EditMessageText (config_text panels (world d') cid) cid
                      (message_id (cq_message q)) (kb_group_options panels))].
Proof.
  intros Hmod cid d'.
  destruct (toggle_effect out beyond self panels q d Hmod) as (Hi & Hg & Hr).
  fold cid d' in Hi, Hg, Hr.
  pose proof (chat_mode_toggled (world d) (world d') cid) as Hmode.
  repeat split; [| |done..|].
  - by rewrite Hmode, decide_True.
  - intros cid' Hne. by rewrite Hmode, decide_False.
  - subst d'. rewrite (toggle_group_watch_run _ _ _ _ _ _ Hmod). fold cid.
    rewrite world_gateway_further, further_gateway_further. simpl.
    by eexists.
Qed.

Lemma toggle_flips_the_mode_witness :
  chat_mode
    (world (snd (toggle_group_watch all_admins silent demo_bot demo_panels
                   carol_toggle fresh_desk))) (-1001)
  = Ignore.
Proof.
  refine (proj1 (toggle_flips_the_mode all_admins silent demo_bot demo_panels
                   carol_toggle fresh_desk _)).
  right. exists 9, (lit "administrator"). by repeat split.
Defined.

(** X13: two presses of the toggle by a moderator leave the chat in the
    mode it was in, and with it the decision for every user of every
    chat, whether or not the gateway took the two panels. *)
Theorem toggle_twice_restores out beyond self panels q d :
  always_moderator out (IsCallbackQuery q) →
  let cid := chat_id (chat (cq_message q)) in
  let d1 := snd (toggle_group_watch out beyond self panels q d) in
  let d2 := snd (toggle_group_watch out beyond self panels q d1) in
  chat_mode (world d2) cid = chat_mode (world d) cid
  ∧ ∀ cid' uid,
      should_process (world d2) cid' uid = should_process (world d) cid' uid.
Proof.
  intros Hmod cid d1 d2.
  destruct (toggle_effect out beyond self panels q d Hmod) as (H1 & _ & H1r).
  destruct (toggle_effect out beyond self panels q d1 Hmod) as (H2 & _ & H2r).
  fold cid d1 in H1, H1r, H2, H2r. fold d2 in H2, H2r.
  assert (Hmode : ∀ cid', chat_mode (world d2) cid' = chat_mode (world d) cid').
  { intros cid'.
    rewrite (chat_mode_toggled (world d1) (world d2) cid cid' H2).
    destruct (decide (cid' = cid)) as [->|Hne].
    - rewrite (chat_mode_toggled (world d) (world d1) cid cid H1).
      rewrite decide_True by done. by destruct (chat_mode (world d) cid).
    - rewrite (chat_mode_toggled (world d) (world d1) cid cid' H1).
      by rewrite decide_False. }
  split; [apply Hmode|]. intros cid' uid.
  rewrite !should_process_table. unfold user_override.
  by rewrite Hmode, H2r, H1r.
Qed.

Lemma toggle_twice_restores_witness :
  chat_mode
    (world (snd (toggle_group_watch all_admins silent demo_bot demo_panels
                   carol_toggle
                   (snd (toggle_group_watch all_admins silent demo_bot
                           demo_panels carol_toggle fresh_desk))))) (-1001)
  = chat_mode (world fresh_desk) (-1001).
Proof.
  refine (proj1 (toggle_twice_restores all_admins silent demo_bot demo_panels
                   carol_toggle fresh_desk _)).
  right. exists 9, (lit "administrator"). by repeat split.
Defined.

(** X14: without the moderation check passed, a press of the toggle or
    of a default-syntax button changes nothing and shows nothing: the
    tables stay as they were, no panel is sent, and the handler returns
    after the question to the gateway and a log line. *)
Theorem settings_need_a_moderator out beyond self panels q d :
  never_moderator out (IsCallbackQuery q) →
  let w' := emit (LogMsg "user trying to toggle group watch mode")
              (checked (IsCallbackQuery q) (world d)) in
  toggle_group_watch out beyond self panels q d
  = (Return tt, {| world := w'; further := further d |})
  ∧ stores w' = stores (world d)
  ∧ (∀ ext, cq_data q = SetDefaultExt ext →
       let run := set_group_syntax out beyond self panels q d in
       fst run = Return tt
       ∧ stores (world (snd run)) = stores (world d)
       ∧ further (snd run) = further d).
Proof.
  intros Hnot w'. split; [|split].
  - unfold toggle_group_watch.
    rewrite run_bind_D, run_lift, (non_moderator_fails _ _ _ Hnot). simpl.
    by rewrite run_bind_D, run_lift.
  - subst w'. apply stores_checked.
  - intros ext Hdata run. subst run. unfold set_group_syntax.
    erewrite retry_D_Return.
    2:{ unfold set_group_syntax_body. rewrite Hdata.
        rewrite run_bind_D. simpl.
        rewrite run_bind_D, run_lift, (non_moderator_fails _ _ _ Hnot). simpl.
        by rewrite run_bind_D, run_lift. }
    simpl. repeat split. apply stores_checked.
Qed.

Lemma settings_need_a_moderator_witness :
  toggle_group_watch calm silent demo_bot demo_panels carol_toggle fresh_desk
  = (Return tt,
     {| world := after fresh [GetChatMember (-1001) 9;
                              LogMsg "user trying to toggle group watch mode"];
        further := [] |}).
Proof.
  refine (proj1 (settings_need_a_moderator calm silent demo_bot demo_panels
                   carol_toggle fresh_desk _)).
  split; [reflexivity|]. exists 9, (lit "member"). by repeat split.
Defined.

(** The syntax a default-syntax button stands for: none for the empty
    one. *)
Lemma set_group_syntax_body_world out beyond self panels q ext d :
  always_moderator out (IsCallbackQuery q) →
  cq_data q = SetDefaultExt ext →
  world (snd (set_group_syntax_body out beyond self panels q d))
  = set_group_default (chat_id (chat (cq_message q)))
      match ext with [] => None | _ :: _ => Some ext end
      (emit (LogMsg "user trying to set group default syntax")
         (checked (IsCallbackQuery q) (world d))).
Proof.
  intros Hmod Hdata. unfold set_group_syntax_body. rewrite Hdata.
  rewrite run_bind_D. simpl.
  rewrite run_bind_D, run_lift, (moderator_passes _ _ _ Hmod). simpl.
  rewrite run_bind_D, run_lift. simpl. rewrite run_bind_D.
  destruct ext as [|c ext].
  - rewrite run_lift. unfold del_group_syntax. simpl.
    destruct (group_syntaxes (checked (IsCallbackQuery q) (world d))
                !! chat_id (chat (cq_message q))) eqn:Hstored;
      [|destruct (del_missing beyond)]; simpl.
    + by rewrite show_group_options_run, world_gateway_further.
    + unfold set_group_default, emit. simpl. by rewrite delete_id.
    + by rewrite show_group_options_run, world_gateway_further.
  - rewrite run_lift. simpl.
    by rewrite show_group_options_run, world_gateway_further.
Qed.

(** What a press of a default-syntax button by a moderator does to the
    tables, whatever the gateway answers and however often [retry] has
    to start again. *)
Lemma set_group_syntax_effect out beyond self panels q ext d :
  always_moderator out (IsCallbackQuery q) →
  cq_data q = SetDefaultExt ext →
  let cid := chat_id (chat (cq_message q)) in
  let d' := snd (set_group_syntax out beyond self panels q d) in
  group_syntaxes (world d') !! cid
  = match ext with [] => None | _ :: _ => Some ext end
  ∧ (∀ cid', cid' ≠ cid →
       group_syntaxes (world d') !! cid' = group_syntaxes (world d) !! cid')
  ∧ ignore_mode_groups (world d') = ignore_mode_groups (world d)
  ∧ group_user_current_watchme_requests (world d')
    = group_user_current_watchme_requests (world d).
Proof.
  intros Hmod Hdata cid d'. subst d'. unfold set_group_syntax, retry_D.
  set (R := λ d0 : Desk,
         (∀ cid', cid' ≠ cid →
            group_syntaxes (world d0) !! cid' = group_syntaxes (world d) !! cid')
         ∧ ignore_mode_groups (world d0) = ignore_mode_groups (world d)
         ∧ group_user_current_watchme_requests (world d0)
           = group_user_current_watchme_requests (world d)).
  set (Q := λ d0 : Desk,
         group_syntaxes (world d0) !! cid
         = match ext with [] => None | _ :: _ => Some ext end
         ∧ R d0).
  apply (retry_loop_D_post R Q); subst Q R; cbv beta.
  - intros d0 (Hg & Hi & Hr).
    rewrite (set_group_syntax_body_world _ _ _ _ _ _ _ Hmod Hdata). fold cid.
    pose proof (stores_checked (IsCallbackQuery q) (world d0)) as Hs.
    injection Hs as Hg0 Hi0 Hr0.
    split; [|split; [|split]]; simpl; rewrite ?Hg0, ?Hi0, ?Hr0; try done.
    + destruct ext; [apply lookup_delete_eq|apply lookup_insert_eq].
    + intros cid' Hne. rewrite <- Hg by done.
      destruct ext; [by apply lookup_delete_ne|by apply lookup_insert_ne].
  - by intros d0 [_ HR].
  - intros c d0 HQ. by rewrite run_lift.
  - by repeat split.
Qed.

(** X15: the default syntax of a chat makes the round trip. After a
    moderator has picked a syntax, the table holds it for the chat and
    the settings panel reads it; after the moderator has then picked
    [None] (the empty syntax), the chat has no default again and the
    panel reads [None]. No other chat is touched. *)
Theorem default_syntax_round_trip out beyond self panels q_set q_clear ext d :
  always_moderator out (IsCallbackQuery q_set) →
  always_moderator out (IsCallbackQuery q_clear) →
  cq_data q_set = SetDefaultExt ext → ext ≠ [] →
  cq_data q_clear = SetDefaultExt [] →
  chat_id (chat (cq_message q_clear)) = chat_id (chat (cq_message q_set)) →
  let cid := chat_id (chat (cq_message q_set)) in
  let d1 := snd (set_group_syntax out beyond self panels q_set d) in
  let d2 := snd (set_group_syntax out beyond self panels q_clear d1) in
  group_syntaxes (world d1) !! cid = Some ext
  ∧ config_text panels (world d1) cid
    = lang_current_config panels ext
        (if default false (ignore_mode_groups (world d) !! cid)
         then lit "ignore" else lit "watch")
  ∧ group_syntaxes (world d2) !! cid = None
  ∧ config_text panels (world d2) cid
    = lang_current_config panels (lit "None")
        (if default false (ignore_mode_groups (world d) !! cid)
         then lit "ignore" else lit "watch")
  ∧ (∀ cid', cid' ≠ cid →
       group_syntaxes (world d2) !! cid' = group_syntaxes (world d) !! cid').
Proof.
  intros Hset Hclear Hdset Hext Hdclear Hsame cid d1 d2.
  destruct (set_group_syntax_effect out beyond self panels q_set ext d
              Hset Hdset) as (H1 & H1' & H1i & _).
  destruct (set_group_syntax_effect out beyond self panels q_clear [] d1
              Hclear Hdclear) as (H2 & H2' & H2i & _).
  rewrite Hsame in H2, H2'. fold cid d1 in H1, H1', H1i, H2, H2', H2i.
  fold d2 in H2, H2', H2i.
  assert (H1s : group_syntaxes (world d1) !! cid = Some ext)
    by (rewrite H1; by destruct ext).
  unfold config_text. rewrite H1s, H2, H2i, H1i. repeat split.
  intros cid' Hne. by rewrite H2', H1'.
Qed.

Lemma default_syntax_round_trip_witness :
  group_syntaxes
    (world (snd (set_group_syntax all_admins silent demo_bot demo_panels
                   carol_sets_python fresh_desk))) !! (-1001)
  = Some (lit "py")
  ∧ group_syntaxes
      (world (snd (set_group_syntax all_admins silent demo_bot demo_panels
                     carol_clears_default
                     (snd (set_group_syntax all_admins silent demo_bot
                             demo_panels carol_sets_python fresh_desk)))))
    !! (-1001) = None.
Proof.
  assert (Hset : always_moderator all_admins (IsCallbackQuery carol_sets_python)).
  { right. exists 9, (lit "administrator"). by repeat split. }
  assert (Hclear : always_moderator all_admins
                     (IsCallbackQuery carol_clears_default)).
  { right. exists 9, (lit "administrator"). by repeat split. }
  destruct (default_syntax_round_trip all_admins silent demo_bot demo_panels
              carol_sets_python carol_clears_default (lit "py") fresh_desk
              Hset Hclear eq_refl ltac:(discriminate) eq_refl eq_refl)
    as (H1 & _ & H2 & _).
  exact (conj H1 H2).
Defined.

(** X16: the default a moderator has picked is what an undecided snippet
    of that chat falls back on: with no accepted explicit tag, the
    classifier below the threshold and no matching prefix, the syntax is
    settled as the chat's new default. *)
Theorem picked_default_is_the_fallback out beyond self panels q ext d
    message text_content syntax probability others :
  always_moderator out (IsCallbackQuery q) →
  cq_data q = SetDefaultExt ext → ext ≠ [] →
  let w' := world (snd (set_group_syntax out beyond self panels q d)) in
  chat_id (chat message) = chat_id (chat (cq_message q)) →
  truthy (code_specified_syntax self message) = false →
  classifier_answer out w' text_content = inr ((syntax, probability) :: others) →
  PrimFloat.leb PROBABILITY_MIN probability = false →
  first_prefix PREFIXES text_content = None →
  fst (resolve out self message text_content w') = Return (Some ext).
Proof.
  intros Hmod Hdata Hext w' Hchat Hcss Hc Hp Hnone.
  rewrite (resolve_low_confidence _ _ _ _ _ _ _ _ Hcss Hc Hp), Hnone, Hchat.
  destruct (set_group_syntax_effect out beyond self panels q ext d Hmod Hdata)
    as (H1 & _). subst w'. rewrite H1. by destruct ext.
Qed.

Lemma picked_default_is_the_fallback_witness :
  fst (resolve all_admins demo_bot plain_group_message (lit "x = 1")
         (world (snd (set_group_syntax all_admins silent demo_bot demo_panels
                        carol_sets_python fresh_desk))))
  = Return (Some (lit "py")).
Proof.
  refine (picked_default_is_the_fallback all_admins silent demo_bot demo_panels
            carol_sets_python (lit "py") fresh_desk plain_group_message
            (lit "x = 1") (lit "JSON") 0x1.999999999999ap-5%float []
            _ eq_refl _ eq_refl eq_refl eq_refl eq_refl eq_refl).
  - right. exists 9, (lit "administrator"). by repeat split.
  - discriminate.
Defined.

Lemma config_text_stores panels w' w cid :
  stores w' = stores w → config_text panels w' cid = config_text panels w cid.
Proof. intros [= Hg Hi _]. unfold config_text. by rewrite Hg, Hi. Qed.

(** X17: the settings panel is for moderators only. To someone who
    fails the moderation check [manage_group_options] sends nothing and
    changes nothing; to a moderator, with a gateway that takes the
    message, it sends once the panel with the current default syntax and
    mode of the chat and the group-options keyboard. *)
Theorem settings_panel_is_for_moderators out beyond self panels message u d :
  from_user message = Some u →
  let cid := chat_id (chat message) in
  let run := manage_group_options out beyond self panels message d in
  (never_moderator out (IsMessage message) →
   fst run = Return tt
   ∧ further (snd run) = further d
   ∧ stores (world (snd run)) = stores (world d))
  ∧ (always_moderator out (IsMessage message) → obliging beyond →
     ∃ stamp,
       fst run = Return tt
       ∧ further (snd run)
         = further d
           ++ [(stamp, SendMessage cid (config_text panels (world d) cid)
                         (kb_group_options panels))]
       ∧ stores (world (snd run)) = stores (world d)).
Proof.
  intros Hu cid run. subst run. unfold manage_group_options. split.
  - intros Hnot. erewrite retry_D_Return.
    2:{ unfold manage_group_options_body.
        rewrite run_bind_D, run_lift, (non_moderator_fails _ _ _ Hnot). simpl.
        rewrite Hu. simpl. rewrite run_bind_D, run_lift. simpl.
        by rewrite run_bind_D, run_lift. }
    simpl. repeat split. apply stores_checked.
  - intros Hmod [Hdone _].
    eexists. erewrite retry_D_Return.
    2:{ unfold manage_group_options_body.
        rewrite run_bind_D, run_lift, (moderator_passes _ _ _ Hmod). simpl.
        rewrite Hu. simpl. rewrite run_bind_D, run_lift. simpl.
        rewrite run_bind_D, run_lift. simpl.
        rewrite run_bind_D, run_lift, get_group_config_md_run. simpl.
        unfold gateway_further. rewrite Hdone. reflexivity. }
    simpl. split; [done|]. split; [|apply stores_checked].
    unfold emit_further. simpl.
    rewrite (config_text_stores panels _ (world d)); [done|].
    apply (stores_checked (IsMessage message)).
Qed.

Lemma settings_panel_is_for_moderators_witness :
  further (snd (manage_group_options calm silent demo_bot demo_panels
                  group_snippet fresh_desk)) = [].
Proof.
  refine (proj1 (proj2 (proj1 (settings_panel_is_for_moderators calm silent
            demo_bot demo_panels group_snippet alice fresh_desk eq_refl) _))).
  split; [reflexivity|]. exists 7, (lit "member"). by repeat split.
Defined.

(** ** Keyboards *)

(** X18: the restore button of the minimized syntax keyboard brings the
    syntax keyboard back: with the payload of that button and a gateway
    that takes the calls, [restore_kb] attaches [kb['syntax']] to the
    message and answers the query. A payload that names no keyboard of
    the configuration ends with a [KeyError] before anything is asked of
    the gateway. *)
Theorem restore_brings_the_keyboard_back out self panels q w :
  (∀ mini_text b,
     (∀ tr c, gateway_done out tr c = None) →
     head (minikb (lit "syntax") mini_text) = Some b →
     button_action b = Some (cq_data q) →
     restore_kb out self panels q w
     = (Return tt,
        after w [EditMessageReplyMarkup (chat_id (chat (cq_message q)))
                   (message_id (cq_message q)) (kb_syntax self);
                 AnswerCallbackQuery (cq_id q)]))
  ∧ (∀ name,
       cq_data q = Restore name →
       name ∉ [lit "syntax"; lit "group options"; lit "group syntax"] →
       restore_kb out self panels q w = (Raise KeyError, w)).
Proof.
  split.
  - intros mini_text b Hdone [= <-] [= Hdata]. apply retry_Return.
    unfold restore_kb_body. rewrite <- Hdata. run. unfold kb.
    rewrite bool_decide_eq_true_2 by done. run. unfold gateway, tell.
    by rewrite !Hdone.
  - intros name Hdata Hname. apply retry_Raise; [|done].
    unfold restore_kb_body. rewrite Hdata. run. unfold kb.
    rewrite !bool_decide_eq_false_2; [done|..];
      intros ->; apply Hname; set_solver.
Qed.

Lemma restore_brings_the_keyboard_back_witness :
  restore_kb calm demo_bot demo_panels alice_restores fresh
  = (Return tt,
     after fresh [EditMessageReplyMarkup (-1001) 100 (kb_syntax demo_bot);
                  AnswerCallbackQuery (lit "q6")]).
Proof.
  exact (proj1 (restore_brings_the_keyboard_back calm demo_bot demo_panels
                  alice_restores fresh) (lit "...") _ (λ _ _, eq_refl)
           eq_refl eq_refl).
Defined.

(** ** Inline queries *)

Lemma startswith_app (p s : str) : startswith (p ++ s) p = true.
Proof.
  induction p as [|a p IH]; simpl; [by destruct s|]. by rewrite N.eqb_refl.
Qed.

Lemma after_first_eq sep s :
  after_first sep s
  = if startswith s sep then Some (drop (length sep) s)
    else match s with
         | [] => None
         | _ :: s' => after_first sep s'
         end.
Proof. by destruct s. Qed.

Lemma last_of_split_once_prefix sep s : last_of_split_once sep (sep ++ s) = s.
Proof.
  unfold last_of_split_once. rewrite after_first_eq, startswith_app.
  simpl. by rewrite drop_app_length.
Qed.

(** X19: the file id that the send button of an image carries in its
    inline query, [img ] followed by the id, is the one that comes out
    at the other end: for a query of this form [send_photo_elsewhere] is
    the handler, it asks the gateway about that very file and answers
    with that very photo, whatever the id is (it may hold [img ] itself).
    Any query that does not start with [img ] is answered with no result
    and the invitation to the private chat. *)
Theorem inline_query_answers beyond self panels inline_query d :
  obliging beyond →
  let stamp := length (trace (world d)) in
  (∀ file_id,
     iq_query inline_query = lit "img " ++ file_id →
     on_inline_query beyond self panels inline_query d
     = (Return tt,
        {| world := emit (LogMsg "creating inline query result") (world d);
           further :=
             further d
             ++ [(stamp, GetFile file_id);
                 (S stamp,
                  AnswerInlineQuery (iq_id inline_query)
                    [CachedPhoto file_id (lit "Send Image")] None true)] |}))
  ∧ (startswith (iq_query inline_query) (lit "img ") = false →
     on_inline_query beyond self panels inline_query d
     = (Return tt,
        {| world := emit (LogMsg "receiving inline query") (world d);
           further :=
             further d
             ++ [(S stamp,
                  AnswerInlineQuery (iq_id inline_query) []
                    (Some (lang_switch_to_direct panels, lit "x")) false)] |})).
Proof.
  intros [Hdone Hinfo] stamp. split.
  - intros file_id Hquery. unfold on_inline_query.
    rewrite Hquery, startswith_app. apply retry_D_Return.
    unfold send_photo_elsewhere_body. cbv zeta.
    rewrite Hquery, last_of_split_once_prefix. rewrite run_bind_D.
    destruct (Hinfo (trace (world d)) (further d) file_id) as [info ->].
    rewrite run_bind_D, run_lift. simpl.
    unfold gateway_further. rewrite Hdone. unfold emit_further. simpl.
    rewrite <- app_assoc. simpl. rewrite length_app. simpl.
    by rewrite Nat.add_1_r.
  - intros Hother. unfold on_inline_query. rewrite Hother.
    apply retry_D_Return. unfold switch_from_inline_body.
    rewrite run_bind_D, run_lift. simpl.
    unfold gateway_further. rewrite Hdone. unfold emit_further. simpl.
    rewrite length_app. simpl. by rewrite Nat.add_1_r.
Qed.

Lemma inline_query_answers_witness :
  on_inline_query silent demo_bot demo_panels share_image fresh_desk
  = (Return tt,
     {| world := emit (LogMsg "creating inline query result") fresh;
        further :=
          [(0%nat, GetFile (lit "file-1"));
           (1%nat, AnswerInlineQuery (lit "iq1")
                     [CachedPhoto (lit "file-1") (lit "Send Image")] None
                     true)] |}).
Proof.
  refine (proj1 (inline_query_answers silent demo_bot demo_panels share_image
                   fresh_desk _) (lit "file-1") eq_refl).
  split; intros; by eexists.
Defined.

(** ** [load_configs] *)

Lemma load_configs_inr files cfg :
  load_configs files = inr cfg →
  ∃ select toggle,
    english files !! lit "select default syntax" = Some select
    ∧ english files !! lit "toggle watch mode" = Some toggle
    ∧ cfg_kb_syntax cfg
      = ((λ '(name, ext), CallbackButton name (SetExt ext)) <$> syntaxes files)
        ++ [BEGONE_BUTTON]
    ∧ cfg_kb_group_syntax cfg
      = ((λ '(name, ext), CallbackButton name (SetDefaultExt ext))
           <$> syntaxes files)
        ++ [CallbackButton (lit "None") (SetDefaultExt []); BEGONE_BUTTON]
    ∧ cfg_kb_group_options cfg
      = [CallbackButton select BrowseGroupSyntax;
         CallbackButton toggle ToggleWatchMode; BEGONE_BUTTON].
Proof.
  unfold load_configs, getitem.
  destruct (english files !! lit "select default syntax") as [select|]; [|done].
  destruct (english files !! lit "toggle watch mode") as [toggle|]; [|done].
  intros [= <-]. by exists select, toggle.
Qed.

(** X20: [load_configs] needs the two texts of the group-options
    keyboard: it succeeds exactly when [english.yml] has both, and fails
    with a [KeyError] otherwise, a missing file included. When it
    succeeds, the syntax keyboard and the group-syntax keyboard carry one
    button for each entry of [syntaxes.yml], in the order of the file,
    with the entry's name as label and its ext as payload; the
    group-syntax keyboard then has the [None] button with the empty ext;
    and every keyboard ends with the bin. *)
Theorem load_configs_keyboards files :
  ((∃ cfg, load_configs files = inr cfg) ↔
   is_Some (english files !! lit "select default syntax")
   ∧ is_Some (english files !! lit "toggle watch mode"))
  ∧ (∀ e, load_configs files = inl e → e = KeyError)
  ∧ (∀ cfg, load_configs files = inr cfg →
       (∀ i name ext,
          syntaxes files !! i = Some (name, ext) →
          cfg_kb_syntax cfg !! i = Some (CallbackButton name (SetExt ext))
          ∧ cfg_kb_group_syntax cfg !! i
            = Some (CallbackButton name (SetDefaultExt ext)))
       ∧ cfg_kb_group_syntax cfg !! length (syntaxes files)
         = Some (CallbackButton (lit "None") (SetDefaultExt []))
       ∧ length (cfg_kb_syntax cfg) = S (length (syntaxes files))
       ∧ length (cfg_kb_group_syntax cfg) = S (S (length (syntaxes files)))
       ∧ last (cfg_kb_syntax cfg) = Some BEGONE_BUTTON
       ∧ last (cfg_kb_group_syntax cfg) = Some BEGONE_BUTTON
       ∧ last (cfg_kb_group_options cfg) = Some BEGONE_BUTTON).
Proof.
  split; [|split].
  - split.
    + intros [cfg (select & toggle & -> & -> & _)%load_configs_inr]. by split.
    + intros [[select Hs] [toggle Ht]]. unfold load_configs, getitem.
      rewrite Hs, Ht. by eexists.
  - intros e. unfold load_configs, getitem.
    destruct (english files !! lit "select default syntax"); [|by intros [= <-]].
    destruct (english files !! lit "toggle watch mode"); [done|by intros [= <-]].
  - intros cfg (select & toggle & _ & _ & -> & -> & ->)%load_configs_inr.
    split; [|split; [|split; [|split; [|split; [|split]]]]].
    + intros i name ext Hi. split.
      * rewrite lookup_app_l by (rewrite length_fmap; by eapply lookup_lt_Some).
        by rewrite list_lookup_fmap, Hi.
      * rewrite lookup_app_l by (rewrite length_fmap; by eapply lookup_lt_Some).
        by rewrite list_lookup_fmap, Hi.
    + rewrite lookup_app_r by (by rewrite length_fmap).
      by rewrite length_fmap, Nat.sub_diag.
    + rewrite length_app, length_fmap. simpl. lia.
    + rewrite length_app, length_fmap. simpl. lia.
    + by rewrite last_snoc.
    + rewrite (assoc_L (++) _ [CallbackButton (lit "None") (SetDefaultExt [])]
                 [BEGONE_BUTTON]).
      by rewrite last_snoc.
    + done.
Qed.

(** X21: from the configuration to the table. Every button of the
    group-syntax keyboard that [load_configs] builds is the bin or a
    default-syntax button, for an entry of [syntaxes.yml] or for [None];
    and when a moderator presses a default-syntax button, the press is
    routed to [set_group_syntax] and leaves the chat with the button's
    ext as its default, or with no default for the empty ext. *)
Theorem group_syntax_buttons_set_defaults out beyond self panels files cfg
    b q d :
  load_configs files = inr cfg →
  b ∈ cfg_kb_group_syntax cfg →
  button_action b = Some (cq_data q) →
  always_moderator out (IsCallbackQuery q) →
  b = BEGONE_BUTTON
  ∨ ∃ name ext,
      b = CallbackButton name (SetDefaultExt ext)
      ∧ ((name, ext) ∈ syntaxes files ∨ (name = lit "None" ∧ ext = []))
      ∧ group_syntaxes (world (snd (on_callback_query out beyond self panels q d)))
          !! chat_id (chat (cq_message q))
        = match ext with [] => None | _ :: _ => Some ext end.
Proof.
  intros (select & toggle & _ & _ & _ & -> & _)%load_configs_inr Hb Hdata Hmod.
  assert (Hpress : ∀ name ext,
            b = CallbackButton name (SetDefaultExt ext) →
            group_syntaxes
              (world (snd (on_callback_query out beyond self panels q d)))
              !! chat_id (chat (cq_message q))
            = match ext with [] => None | _ :: _ => Some ext end).
  { intros name ext ->. injection Hdata as Hdata.
    unfold on_callback_query. rewrite <- Hdata.
    by apply set_group_syntax_effect. }
  apply elem_of_app in Hb as [Hb|Hb].
  - apply list_elem_of_fmap in Hb as ([name ext] & -> & Hin).
    right. exists name, ext. split; [done|]. split; [by left|].
    exact (Hpress name ext eq_refl).
  - apply elem_of_cons in Hb as [->|Hb].
    + right. exists (lit "None"), []. split; [done|]. split; [by right|].
      exact (Hpress (lit "None") [] eq_refl).
    + left. by apply list_elem_of_singleton in Hb.
Qed.

Lemma group_syntax_buttons_set_defaults_witness :
  CallbackButton (lit "Python") (SetDefaultExt (lit "py")) = BEGONE_BUTTON
  ∨ ∃ name ext,
      CallbackButton (lit "Python") (SetDefaultExt (lit "py"))
      = CallbackButton name (SetDefaultExt ext)
      ∧ ((name, ext) ∈ syntaxes demo_files ∨ (name = lit "None" ∧ ext = []))
      ∧ group_syntaxes
          (world (snd (on_callback_query all_admins silent demo_bot demo_panels
                         carol_sets_python fresh_desk)))
          !! chat_id (chat (cq_message carol_sets_python))
        = match ext with [] => None | _ :: _ => Some ext end.
Proof.
  refine (group_syntax_buttons_set_defaults all_admins silent demo_bot
            demo_panels demo_files demo_config
            (CallbackButton (lit "Python") (SetDefaultExt (lit "py")))
            carol_sets_python fresh_desk eq_refl _ eq_refl _).
  - apply list_elem_of_In. left. reflexivity.
  - right. exists 9, (lit "administrator"). by repeat split.
Defined.

(** ** Nested [retry] decorators *)

(** One failed attempt of [retry_loop]: the calls of the attempt, a sleep
    and, from the second attempt on, a line in the log. *)
Lemma retry_loop_fails_once {A} P cs (Inv : World → Prop) has_logger seconds
    (original : M A) last_error n attempt w :
  P (Sleep seconds) = false → P (LogMsg "called retry-able") = false →
  (∀ c w, Inv w → Inv (emit c w)) →
  (∀ w, Inv w →
        fst (original w) = Raise ConnectionError
        ∧ Inv (snd (original w))
        ∧ calls P (snd (original w)) = calls P w ++ cs) →
  Inv w →
  ∃ w3, retry_loop has_logger seconds original (S n) attempt last_error w
        = retry_loop has_logger seconds original n (S attempt)
            ConnectionError w3
        ∧ Inv w3 ∧ calls P w3 = calls P w ++ cs.
Proof.
  intros Hsleep Hlog Hemit Ho Hw.
  rewrite retry_loop_S. unfold try_except.
  destruct (Ho w Hw) as (Hr & Hi & HP).
  destruct (original w) as [r w1]. simpl in Hr, Hi, HP. subst r.
  simpl is_ConnectionError. cbv iota.
  rewrite run_bind. unfold note at 1. rewrite run_bind.
  destruct (has_logger && bool_decide (0 < attempt)%nat).
  - unfold note. eexists. split; [reflexivity|].
    split; [by repeat apply Hemit|]. by rewrite !calls_emit_other.
  - rewrite run_ret. eexists. split; [reflexivity|].
    split; [by apply Hemit|]. by rewrite calls_emit_other.
Qed.

(** When every attempt fails with [ConnectionError] after the same calls
    that satisfy [P], [retry_loop] has made these calls once for each
    attempt. [Inv] is what the attempts may rely on. *)
Lemma retry_loop_gives_up_each {A} P cs (Inv : World → Prop) has_logger seconds
    (original : M A) :
  P (Sleep seconds) = false → P (LogMsg "called retry-able") = false →
  (∀ c w, Inv w → Inv (emit c w)) →
  (∀ w, Inv w →
        fst (original w) = Raise ConnectionError
        ∧ Inv (snd (original w))
        ∧ calls P (snd (original w)) = calls P w ++ cs) →
  ∀ attempts attempt w,
    Inv w →
    let r := retry_loop has_logger seconds original attempts attempt
               ConnectionError w in
    fst r = Raise ConnectionError
    ∧ Inv (snd r)
    ∧ calls P (snd r) = calls P w ++ concat (replicate attempts cs).
Proof.
  intros Hsleep Hlog Hemit Ho attempts.
  induction attempts as [|n IH]; intros attempt w Hw; cbv zeta.
  - simpl. by rewrite app_nil_r.
  - destruct (retry_loop_fails_once P cs Inv has_logger seconds original
                ConnectionError n attempt w Hsleep Hlog Hemit Ho Hw)
      as (w3 & -> & Hi3 & H3).
    destruct (IH (S attempt) w3 Hi3) as (Hr' & Hi' & HP').
    split; [done|]. split; [done|].
    rewrite HP', H3. simpl. by rewrite <- !app_assoc.
Qed.

Lemma retry_gives_up_each {A} P cs (Inv : World → Prop) has_logger
    (original : M A) w :
  P (Sleep 3) = false → P (LogMsg "called retry-able") = false →
  (∀ c w, Inv w → Inv (emit c w)) →
  (∀ w, Inv w →
        fst (original w) = Raise ConnectionError
        ∧ Inv (snd (original w))
        ∧ calls P (snd (original w)) = calls P w ++ cs) →
  Inv w →
  fst (retry has_logger original w) = Raise ConnectionError
  ∧ Inv (snd (retry has_logger original w))
  ∧ calls P (snd (retry has_logger original w))
    = calls P w ++ concat (replicate 6 cs).
Proof.
  intros Hsleep Hlog Hemit Ho Hw. unfold retry.
  destruct (retry_loop_fails_once P cs Inv has_logger 3 original
              UnboundLocalError 5%nat 0%nat w Hsleep Hlog Hemit Ho Hw)
    as (w3 & -> & Hi3 & H3).
  destruct (retry_loop_gives_up_each P cs Inv has_logger 3 original Hsleep Hlog
              Hemit Ho 5%nat 1%nat w3 Hi3) as (Hr' & Hi' & HP').
  split; [done|]. split; [done|].
  rewrite HP', H3.
  change (concat (replicate 6 cs)) with (cs ++ concat (replicate 5 cs)).
  by rewrite <- app_assoc.
Qed.

Lemma run_bind_Raise {A B} (m : M A) (f : A → M B) w e :
  fst (m w) = Raise e → (m ≫= f) w = (Raise e, snd (m w)).
Proof. rewrite run_bind. destruct (m w) as [[a|e'] w']; simpl; congruence. Qed.

Lemma should_process_stores w w' chat_id user_id :
  stores w' = stores w →
  should_process w' chat_id user_id = should_process w chat_id user_id.
Proof. unfold stores, should_process. by intros [= _ -> ->]. Qed.

Lemma calls_emit_filter P c w :
  calls P (emit c w) = calls P w ++ List.filter P [c].
Proof. rewrite calls_emit. simpl. by destruct (P c). Qed.

Lemma filter_concat_replicate {A} (P : A → bool) n (l : list A) :
  List.filter P (concat (replicate n l)) = concat (replicate n (List.filter P l)).
Proof.
  induction n as [|n IH]; [done|]. simpl. by rewrite List.filter_app, IH.
Qed.

Lemma on_truthy {A} (ext : str) (f : str → A) (g : A) :
  ext ≠ [] →
  match Some ext with
  | Some (c :: ext) => f (c :: ext)
  | _ => g
  end = f ext.
Proof. by destruct ext. Qed.

(** A snippet with a language tag, in a chat where the prompt and the
    render go through and no photo can be uploaded for want of a
    connection. [P] is any property of calls that the sleeps and the log
    lines of [retry] do not have. *)
Section NestedRetries.

Context (out : Outside) (self : Bot) (message : Message) (u : User).
Context (text_content ext png_path : str) (size : Z) (kb_msg : Message).
Context (P : call → bool).

Hypothesis Hfrom : from_user message = Some u.
Hypothesis Htext : snippet_text message = Some text_content.
Hypothesis Htag : code_specified_syntax self message = Some ext.
Hypothesis Hext : ext ≠ [].
Hypothesis Hreply : ∀ tr, gateway_message out tr (prompt self message ext)
                          = inr kb_msg.
Hypothesis Hrender : ∀ tr, renderer out tr (rendered_text message) ext DARK
                           = inr png_path.
Hypothesis Haction : ∀ tr, gateway_done out tr (announce message) = None.
Hypothesis Hsize : ∀ tr, file_size out tr png_path = inr size.
Hypothesis Hsmall : size < 300000.
Hypothesis Hphoto : ∀ tr, gateway_message out tr (photo_of message png_path)
                          = inl ConnectionError.
Hypothesis HPsleep : P (Sleep 3) = false.
Hypothesis HPlog : P (LogMsg "called retry-able") = false.

Lemma upload_attempt w :
  send_image_body out (chat_id (chat message)) png_path (message_id message)
    false w
  = (Raise ConnectionError,
     emit (photo_of message png_path)
       (emit (StatSize png_path) (emit (announce message) w))).
Proof.
  unfold send_image_body, gateway, gateway_returning.
  rewrite run_bind. unfold tell at 1. fold (announce message).
  rewrite Haction. rewrite run_bind. unfold ask at 1. rewrite Hsize.
  apply Z.ltb_lt in Hsmall. rewrite Hsmall.
  unfold try_except, ask. fold (photo_of message png_path).
  by rewrite Hphoto.
Qed.

Lemma upload_gives_up w :
  ∃ w', send_image out (chat_id (chat message)) png_path (message_id message)
          false w = (Raise ConnectionError, w')
        ∧ calls P w'
          = calls P w ++ List.filter P (concat (replicate 6 (upload message png_path))).
Proof.
  unfold send_image.
  destruct (retry_gives_up_each P (List.filter P (upload message png_path))
              (λ _, True) false
              (send_image_body out (chat_id (chat message)) png_path
                 (message_id message) false) w HPsleep HPlog)
    as (Hr & _ & HP); try done.
  - intros w0 _. rewrite upload_attempt. split; [done|]. split; [done|].
    cbn [fst snd]. unfold upload.
    rewrite !calls_emit. simpl.
    destruct (P (announce message)), (P (StatSize png_path)),
      (P (photo_of message png_path)); simpl;
      by rewrite ?app_nil_r, <- ?app_assoc.
  - destruct (retry _ _ w) as [r w']. cbn [fst snd] in Hr, HP. subst r.
    exists w'. split; [done|]. by rewrite filter_concat_replicate.
Qed.

Lemma render_attempt w :
  ∃ w', set_snippet_filetype_body out self None (Some message) (Some ext) w
        = (Raise ConnectionError, w')
        ∧ calls P w'
          = calls P w ++ List.filter P (render_once message ext png_path).
Proof.
  rewrite (set_snippet_filetype_body_settled out self None (Some message)
             (Some ext) message ext u w); [|by destruct ext|done].
  rewrite run_bind, run_ret, run_bind. unfold note at 1. rewrite run_bind.
  assert (∃ others, themes_of message = DARK :: others) as [others ->].
  { rewrite themes_of_chat. destruct (is_private (chat message)); by eexists. }
  simpl for_each. rewrite run_bind. unfold send_theme at 1.
  rewrite run_bind. unfold mk_png, ask at 1. rewrite Hrender.
  destruct (upload_gives_up
              (emit (Silicon (rendered_text message) ext DARK)
                 (emit (LogMsg "colorizing code") w))) as (w' & Hr & HP).
  rewrite run_bind, Hr. exists w'. split; [done|].
  rewrite HP, !calls_emit_filter. unfold render_once.
  change ([?a; ?b] ++ ?l) with ([a] ++ [b] ++ l).
  by rewrite !List.filter_app, <- !app_assoc.
Qed.

Lemma render_gives_up w :
  ∃ w', set_snippet_filetype out self None (Some message) (Some ext) w
        = (Raise ConnectionError, w')
        ∧ calls P w'
          = calls P w
            ++ List.filter P
                 (concat (replicate 6 (render_once message ext png_path))).
Proof.
  unfold set_snippet_filetype.
  destruct (retry_gives_up_each P
              (List.filter P (render_once message ext png_path))
              (λ _, True) (log_is_bindable self)
              (set_snippet_filetype_body out self None (Some message)
                 (Some ext)) w HPsleep HPlog)
    as (Hr & _ & HP); try done.
  - intros w0 _. destruct (render_attempt w0) as (w' & -> & HP). by cbn [fst snd].
  - destruct (retry _ _ w) as [r w']. cbn [fst snd] in Hr, HP. subst r.
    exists w'. split; [done|]. by rewrite filter_concat_replicate.
Qed.

Lemma intake_attempt w w0 :
  should_process w (chat_id (chat message)) (user_id u) = true →
  stores w0 = stores w →
  ∃ w', intake_snippet_body out self message w0 = (Raise ConnectionError, w')
        ∧ stores w' = stores w
        ∧ calls P w'
          = calls P w0 ++ List.filter P (intake_once self message ext png_path).
Proof.
  intros Hgo Hstores. unfold intake_snippet_body. rewrite Hfrom.
  simpl id_of. rewrite run_bind, run_ret, run_bind. unfold read at 1.
  rewrite (should_process_stores w w0) by done. rewrite Hgo.
  unfold negb. unfold process_snippet. rewrite Htext.
  rewrite run_bind, resolve_explicit by (rewrite Htag; by destruct ext).
  rewrite Htag.
  rewrite run_bind.
  rewrite (on_truthy ext
             (λ ext,
                kb_msg ← gateway_returning out
                  (ReplyTo message
                     (lang_query_ext self ++ [10; 10]%N
                      ++ lang_guessed_syntax self ext)
                     (minikb (lit "syntax") (lang_syntax_picker self)));
                set_snippet_filetype out self None (Some message) (Some ext) ;;
                mret kb_msg)) by done.
  unfold gateway_returning at 1.
  rewrite run_bind. unfold ask at 1. fold (prompt self message ext).
  rewrite Hreply.
  destruct (render_gives_up
              (emit (prompt self message ext)
                 (emit (LogMsg "receiving code") w0))) as (w' & Hr & HP).
  rewrite run_bind, Hr. exists w'. split; [done|]. split.
  - pose proof (keeps_set_snippet_filetype out self None (Some message)
                  (Some ext)
                  (emit (prompt self message ext)
                     (emit (LogMsg "receiving code") w0))) as Hk.
    rewrite Hr in Hk. cbn [snd] in Hk. by rewrite Hk.
  - rewrite HP, !calls_emit_filter. unfold intake_once.
    change ([?a; ?b] ++ ?l) with ([a] ++ [b] ++ l).
    by rewrite !List.filter_app, <- !app_assoc.
Qed.

Lemma intake_gives_up w :
  should_process w (chat_id (chat message)) (user_id u) = true →
  ∃ w', intake_snippet out self message w = (Raise ConnectionError, w')
        ∧ calls P w'
          = calls P w
            ++ List.filter P
                 (concat (replicate 6 (intake_once self message ext png_path))).
Proof.
  intros Hgo. unfold intake_snippet.
  destruct (retry_gives_up_each P
              (List.filter P (intake_once self message ext png_path))
              (λ w0, stores w0 = stores w) (log_is_bindable self)
              (intake_snippet_body out self message) w HPsleep HPlog)
    as (Hr & _ & HP); try done.
  - intros w0 Hw0. destruct (intake_attempt w w0 Hgo Hw0) as (w' & -> & ? & ?).
    by cbn [fst snd].
  - destruct (retry _ _ w) as [r w']. cbn [fst snd] in Hr, HP. subst r.
    exists w'. split; [done|]. by rewrite filter_concat_replicate.
Qed.

End NestedRetries.

(** X22: the [retry] decorators of [intake_snippet], [set_snippet_filetype]
    and [send_image] are nested, and their attempts multiply. For a snippet
    with a language tag, when the prompt and the render go through and
    every upload of the photo fails for want of a connection,
    [intake_snippet] ends with [ConnectionError] after 6 prompts in the
    chat, 36 renders and 216 attempts to upload the photo; none of the
    six prompts is scheduled for deletion. *)
Theorem nested_retries_multiply out self message u text_content ext png_path
    size kb_msg w :
  from_user message = Some u →
  should_process w (chat_id (chat message)) (user_id u) = true →
  snippet_text message = Some text_content →
  code_specified_syntax self message = Some ext →
  ext ≠ [] →
  (∀ tr, gateway_message out tr (prompt self message ext) = inr kb_msg) →
  (∀ tr, renderer out tr (rendered_text message) ext DARK = inr png_path) →
  (∀ tr, gateway_done out tr (announce message) = None) →
  (∀ tr, file_size out tr png_path = inr size) →
  size < 300000 →
  (∀ tr, gateway_message out tr (photo_of message png_path)
         = inl ConnectionError) →
  ∃ w', intake_snippet out self message w = (Raise ConnectionError, w')
        ∧ calls is_ReplyTo w'
          = calls is_ReplyTo w ++ replicate 6 (prompt self message ext)
        ∧ calls is_Silicon w'
          = calls is_Silicon w
            ++ replicate 36 (Silicon (rendered_text message) ext DARK)
        ∧ calls is_SendPhoto w'
          = calls is_SendPhoto w ++ replicate 216 (photo_of message png_path)
        ∧ calls is_StartDeleteAfterDelay w' = calls is_StartDeleteAfterDelay w.
Proof.
  intros Hfrom Hgo Htext Htag Hext Hreply Hrender Haction Hsize Hsmall Hphoto.
  pose proof (λ P, intake_gives_up out self message u text_content ext png_path
                     size kb_msg P Hfrom Htext Htag Hext Hreply Hrender
                     Haction Hsize Hsmall Hphoto) as Hall.
  destruct (Hall is_ReplyTo eq_refl eq_refl w Hgo) as (w' & Hrun & Hreplies).
  exists w'. split; [done|].
  destruct (Hall is_Silicon eq_refl eq_refl w Hgo) as (w1 & Hrun1 & Hrenders).
  destruct (Hall is_SendPhoto eq_refl eq_refl w Hgo) as (w2 & Hrun2 & Hphotos).
  destruct (Hall is_StartDeleteAfterDelay eq_refl eq_refl w Hgo)
    as (w3 & Hrun3 & Htimers).
  rewrite Hrun in Hrun1, Hrun2, Hrun3.
  injection Hrun1 as <-. injection Hrun2 as <-. injection Hrun3 as <-.
  rewrite Hreplies, Hrenders, Hphotos, Htimers.
  repeat split; try (f_equal; reflexivity).
  by rewrite app_nil_r.
Qed.

Lemma nested_retries_multiply_witness :
  ∃ w', intake_snippet no_uploads demo_bot group_snippet fresh
        = (Raise ConnectionError, w')
        ∧ calls is_ReplyTo w'
          = calls is_ReplyTo fresh
            ++ replicate 6 (prompt demo_bot group_snippet (lit "py"))
        ∧ calls is_Silicon w'
          = calls is_Silicon fresh
            ++ replicate 36
                 (Silicon (rendered_text group_snippet) (lit "py") DARK)
        ∧ calls is_SendPhoto w'
          = calls is_SendPhoto fresh
            ++ replicate 216
                 (photo_of group_snippet (lit "/tmp/ccb_png/a/b.png"))
        ∧ calls is_StartDeleteAfterDelay w'
          = calls is_StartDeleteAfterDelay fresh.
Proof.
  apply (nested_retries_multiply no_uploads demo_bot group_snippet alice
           (lit "print('hello world')") (lit "py")
           (lit "/tmp/ccb_png/a/b.png") 1000 bot_reply fresh);
    try reflexivity; try done.
Defined.
